(** * Knapsack solvers of [algorithms.cpp]: a shallow embedding

    The four solvers ([KBruteForce], [KDynamic], [KProxy], [solveILP]) are
    embedded as Rocq functions.  C++ [int] values are integers of [Z]; signed
    overflow is undefined behaviour in C++ and is outside the model.  Vectors
    are lists, [push_back] appends at the end, and the reference parameters
    that carry the best solution found so far become an explicit state that
    each call takes and returns.  What a solver prints (the ids of the
    selected pallets, in order) is returned next to its profit. *)

From Stdlib Require Import Ascii String.
From Stdlib Require Import ZArith List Lia Permutation Sorted.
From Stdlib Require Import Floats.SpecFloat.
From stdpp Require Import base list.
From Equations Require Import Equations.
Import ListNotations.

Local Open Scope Z_scope.

(** ** Pallet.h *)

Record Pallet := mkPallet { getID : Z; getWeight : Z; getProfit : Z }.

(** [std::find_if(pallets.begin(), pallets.end(), p.id == id)]. *)
Fixpoint find_if (id : Z) (pallets : list Pallet) : option Pallet :=
  match pallets with
  | [] => None
  | p :: rest => if getID p =? id then Some p else find_if id rest
  end.

(** Keeps the equation of a scrutinee, for the termination proofs. *)
Definition inspect {A : Type} (a : A) : {b : A | a = b} := exist _ a eq_refl.

(** ** Case 1: exhaustive search *)

(** The two reference parameters [bestProfit] and [bestSubset] of
    [knapsackRecursive] (the prefix [bf] keeps them apart from the state of
    [branchAndBound]). *)
Record BFState := mkBF { bfProfit : Z; bfSubset : list Z }.

(** The terminal comparison of [knapsackRecursive]. *)
Definition bf_leaf (currentProfit : Z) (currentSubset : list Z) (best : BFState)
  : BFState :=
  if (bfProfit best <? currentProfit)
     || ((currentProfit =? bfProfit best)
         && (length currentSubset <? length (bfSubset best))%nat)
  then mkBF currentProfit currentSubset
  else best.

(** [knapsackRecursive]: the state after the call; the C++ return value is
    its [bfProfit].  [pallets !! index] is [None] exactly when the source's
    [index == pallets.size()] holds, for every index the search reaches
    from 0. *)
Equations? knapsackRecursive (pallets : list Pallet) (index : nat)
    (remainingCapacity currentProfit : Z) (currentSubset : list Z)
    (best : BFState) : BFState by wf (length pallets - index)%nat lt :=
  knapsackRecursive pallets index remainingCapacity currentProfit
                    currentSubset best with inspect (pallets !! index) := {
    | exist _ None _ => bf_leaf currentProfit currentSubset best
    | exist _ (Some p) Hp =>
        let best1 := knapsackRecursive pallets (S index) remainingCapacity
                       currentProfit currentSubset best in
        if getWeight p <=? remainingCapacity
        then knapsackRecursive pallets (S index)
               (remainingCapacity - getWeight p)
               (currentProfit + getProfit p)
               (currentSubset ++ [getID p]) best1
        else best1 }.
Proof.
  all: pose proof (lookup_lt_Some _ _ _ Hp); lia.
Qed.

(** [KBruteForce]: the returned profit and the printed selection. *)
Definition KBruteForce (capacity : Z) (pallets : list Pallet) : Z * list Z :=
  let final := knapsackRecursive pallets 0 capacity 0 [] (mkBF 0 []) in
  (bfProfit final, bfSubset final).

(** ** Case 4: branch and bound *)

Definition INT_MAX : Z := 2147483647.

Record ILPResult := mkILP
  { selectedPallets : list Z; totalProfit : Z; totalWeight : Z }.

(** The reference parameters [bestSelection], [bestProfit], [bestWeight]. *)
Record BBState := mkBB
  { bestSelection : list Z; bestProfit : Z; bestWeight : Z }.

(** The terminal comparison of [branchAndBound]. *)
Definition bb_leaf (currWeight currProfit : Z) (currSelection : list Z)
    (best : BBState) : BBState :=
  if (bestProfit best <? currProfit)
     || ((currProfit =? bestProfit best)
         && ((length currSelection <? length (bestSelection best))%nat
             || ((length currSelection =? length (bestSelection best))%nat
                 && (currWeight <? bestWeight best))))
  then mkBB currSelection currProfit currWeight
  else best.

(** [branchAndBound]: the state after the call.  The first clause is
    [if (pallets.empty()) return;]; [pallets !! idx] is [None] exactly when
    [idx >= pallets.size()].  The pallet is tried included first, then
    excluded. *)
Equations? branchAndBound (pallets : list Pallet) (idx : nat)
    (capacity currWeight currProfit : Z) (currSelection : list Z)
    (best : BBState) : BBState by wf (length pallets - idx)%nat lt :=
  branchAndBound [] idx capacity currWeight currProfit currSelection best :=
    best;
  branchAndBound pallets idx capacity currWeight currProfit currSelection best
    with inspect (pallets !! idx) := {
    | exist _ None _ => bb_leaf currWeight currProfit currSelection best
    | exist _ (Some current) Hp =>
        let best1 :=
          if currWeight + getWeight current <=? capacity
          then branchAndBound pallets (S idx) capacity
                 (currWeight + getWeight current)
                 (currProfit + getProfit current)
                 (currSelection ++ [getID current]) best
          else best in
        branchAndBound pallets (S idx) capacity currWeight currProfit
                       currSelection best1 }.
Proof.
  all: pose proof (lookup_lt_Some _ _ _ Hp) as Hlt; simpl in Hlt |- *; lia.
Qed.

(** The loop of [solveILP] that recomputes the weight from the ids. *)
Definition ilp_weight (pallets : list Pallet) (ids : list Z) : Z :=
  fold_left (fun acc id => match find_if id pallets with
                           | Some it => acc + getWeight it
                           | None => acc
                           end) ids 0.

(** [solveILP]: the search starts from no selection, profit 0 and the
    weight sentinel [INT_MAX]. *)
Definition solveILP (pallets : list Pallet) (capacity : Z) : ILPResult :=
  let best := branchAndBound pallets 0 capacity 0 0 [] (mkBB [] 0 INT_MAX) in
  mkILP (bestSelection best) (bestProfit best)
        (ilp_weight pallets (bestSelection best)).

(** ** Case 2: dynamic programming *)

(** The tables are [std::vector<std::vector<int>>]: lists of rows.  Reading
    outside a table is undefined in C++ and never happens for the indices
    the loops produce; the model reads 0 there. *)
Definition new_table (rows cols : nat) : list (list Z) :=
  replicate rows (replicate cols 0).

Definition tget (t : list (list Z)) (i w : nat) : Z :=
  match t !! i with
  | Some row => default 0 (row !! w)
  | None => 0
  end.

Definition tset (t : list (list Z)) (i w : nat) (v : Z) : list (list Z) :=
  alter (fun row => <[w := v]> row) i t.

(** The body of the inner loop, on the pair of tables [(dp, count)]. *)
Definition fill_cell (pallets : list Pallet) (i w : nat)
    (t : list (list Z) * list (list Z)) : list (list Z) * list (list Z) :=
  let '(dp, count) := t in
  match pallets !! (i - 1)%nat with
  | None => t
  | Some p =>
      let peso := getWeight p in
      let lucro := getProfit p in
      if peso <=? Z.of_nat w then
        let wp := Z.to_nat (Z.of_nat w - peso) in
        let inclui := lucro + tget dp (i - 1) wp in
        let exclui := tget dp (i - 1) w in
        if exclui <? inclui then
          (tset dp i w inclui, tset count i w (tget count (i - 1) wp + 1))
        else if inclui <? exclui then
          (tset dp i w exclui, tset count i w (tget count (i - 1) w))
        else
          let incluiCount := tget count (i - 1) wp + 1 in
          let excluiCount := tget count (i - 1) w in
          (tset dp i w inclui, tset count i w (Z.min incluiCount excluiCount))
      else
        (tset dp i w (tget dp (i - 1) w), tset count i w (tget count (i - 1) w))
  end.

(** [for (int w = 0; w <= capacity; ++w)] *)
Definition fill_row (pallets : list Pallet) (capacity : Z) (i : nat)
    (t : list (list Z) * list (list Z)) : list (list Z) * list (list Z) :=
  fold_left (fun t w => fill_cell pallets i w t)
            (seq 0 (Z.to_nat (capacity + 1))) t.

(** [for (int i = 1; i <= n; ++i)] *)
Definition fill_tables (pallets : list Pallet) (capacity : Z)
    (t : list (list Z) * list (list Z)) : list (list Z) * list (list Z) :=
  fold_left (fun t i => fill_row pallets capacity i t)
            (seq 1 (length pallets)) t.

(** [for (int i = n; i > 0 && w > 0; --i)]: the backward walk, from row [i]
    with remaining capacity [w]. *)
Fixpoint reconstruct (pallets : list Pallet) (dp : list (list Z)) (i : nat)
    (w : Z) (selectedIDs : list Z) : list Z :=
  match i with
  | O => selectedIDs
  | S i' =>
      if 0 <? w then
        match pallets !! i' with
        | None => selectedIDs
        | Some p =>
            if tget dp (S i') (Z.to_nat w) =? tget dp i' (Z.to_nat w)
            then reconstruct pallets dp i' w selectedIDs
            else reconstruct pallets dp i' (w - getWeight p)
                             (selectedIDs ++ [getID p])
        end
      else selectedIDs
  end.

(** [KDynamic]: the returned profit [dp[n][capacity]] and the printed
    selection. *)
Definition KDynamic (capacity : Z) (pallets : list Pallet) : Z * list Z :=
  let n := length pallets in
  let cols := Z.to_nat (capacity + 1) in
  let '(dp, count) :=
    fill_tables pallets capacity
                (new_table (S n) cols, new_table (S n) cols) in
  (tget dp n (Z.to_nat capacity),
   rev (reconstruct pallets dp n capacity [])).

(** *** The variant without the count table

    The same algorithm with the [count] table and the bookkeeping of its
    tie-break removed: only [dp] is allocated and written. *)
Definition fill_cell_nocount (pallets : list Pallet) (i w : nat)
    (dp : list (list Z)) : list (list Z) :=
  match pallets !! (i - 1)%nat with
  | None => dp
  | Some p =>
      let peso := getWeight p in
      let lucro := getProfit p in
      if peso <=? Z.of_nat w then
        let wp := Z.to_nat (Z.of_nat w - peso) in
        let inclui := lucro + tget dp (i - 1) wp in
        let exclui := tget dp (i - 1) w in
        if exclui <? inclui then tset dp i w inclui
        else if inclui <? exclui then tset dp i w exclui
        else tset dp i w inclui
      else tset dp i w (tget dp (i - 1) w)
  end.

Definition fill_row_nocount (pallets : list Pallet) (capacity : Z) (i : nat)
    (dp : list (list Z)) : list (list Z) :=
  fold_left (fun t w => fill_cell_nocount pallets i w t)
            (seq 0 (Z.to_nat (capacity + 1))) dp.

Definition fill_tables_nocount (pallets : list Pallet) (capacity : Z)
    (dp : list (list Z)) : list (list Z) :=
  fold_left (fun t i => fill_row_nocount pallets capacity i t)
            (seq 1 (length pallets)) dp.

Definition KDynamic_nocount (capacity : Z) (pallets : list Pallet)
  : Z * list Z :=
  let n := length pallets in
  let cols := Z.to_nat (capacity + 1) in
  let dp := fill_tables_nocount pallets capacity (new_table (S n) cols) in
  (tget dp n (Z.to_nat capacity),
   rev (reconstruct pallets dp n capacity [])).

(** ** Case 3: greedy approximation *)

(** [static_cast<double>(x)] for an [int] x, and the IEEE 754 binary64
    quotient [profit / weight], in the Standard Library's executable
    specification of floating-point arithmetic. *)
Definition int_to_double (x : Z) : spec_float :=
  binary_normalize 53 1024 x 0 false.

Definition ratio (p : Pallet) : spec_float :=
  SFdiv 53 1024 (int_to_double (getProfit p)) (int_to_double (getWeight p)).

(** The comparator handed to [std::sort]: [r1 > r2]. *)
Definition ratio_gt (a b : Pallet) : bool := SFltb (ratio b) (ratio a).

(** What [std::sort] guarantees of its result for this comparator: no
    pallet is followed by one of strictly greater ratio. *)
Definition sorted_by_ratio (l : list Pallet) : Prop :=
  StronglySorted (fun a b => ratio_gt b a = false) l.

(** The body of the selection loop, on
    [(totalProfit, totalWeight, selectedIDs)]. *)
Definition greedy_step (capacity : Z) (st : Z * Z * list Z) (p : Pallet)
  : Z * Z * list Z :=
  let '(totalProfit, totalWeight, selectedIDs) := st in
  if totalWeight + getWeight p <=? capacity
  then (totalProfit + getProfit p, totalWeight + getWeight p,
        selectedIDs ++ [getID p])
  else st.

Section Greedy.

(** [std::sort] leaves the order of pallets of equal ratio to the
    implementation; the solver is embedded over any sorting function. *)
Variable std_sort : list Pallet -> list Pallet.

Definition KProxy (capacity : Z) (pallets : list Pallet) : Z * list Z :=
  let sorted := std_sort pallets in
  let '(totalProfit, _, selectedIDs) :=
    fold_left (greedy_step capacity) sorted (0, 0, []) in
  (totalProfit, selectedIDs).

End Greedy.

(** One sorting function that meets the interface of [std::sort]: insertion
    by ratio. *)
Fixpoint insert_by_ratio (p : Pallet) (l : list Pallet) : list Pallet :=
  match l with
  | [] => [p]
  | q :: rest => if ratio_gt q p then q :: insert_by_ratio p rest
                 else p :: q :: rest
  end.

Definition insertion_sort (l : list Pallet) : list Pallet :=
  fold_right insert_by_ratio [] l.

Definition items9 : list Pallet :=
  [mkPallet 1 5 10; mkPallet 2 4 40; mkPallet 3 6 30].

(** ** Specification vocabulary *)

Definition total_weight (l : list Pallet) : Z :=
  fold_right (fun p acc => getWeight p + acc) 0 l.

Definition total_profit (l : list Pallet) : Z :=
  fold_right (fun p acc => getProfit p + acc) 0 l.

(** Inputs of the solvers: weights and profits are not negative. *)
Definition nonneg_items (l : list Pallet) : Prop :=
  Forall (fun p => 0 <= getWeight p /\ 0 <= getProfit p) l.

Definition positive_weights (l : list Pallet) : Prop :=
  Forall (fun p => 0 < getWeight p /\ 0 <= getProfit p) l.

(** A subset of the pallets is a sublist: a choice of positions.  It is
    feasible when it fits the capacity. *)
Definition feasible (pallets : list Pallet) (capacity : Z) (s : list Pallet)
  : Prop :=
  s `sublist_of` pallets /\ total_weight s <= capacity.

(** [v] is the maximum profit of a feasible subset. *)
Definition is_optimum (pallets : list Pallet) (capacity v : Z) : Prop :=
  (exists s, feasible pallets capacity s /\ total_profit s = v) /\
  (forall s, feasible pallets capacity s -> total_profit s <= v).

(** The three-level preference between two subsets: more profit, then
    fewer pallets, then less weight. *)
Definition ilp_prefers (sel s : list Pallet) : Prop :=
  total_profit s <= total_profit sel /\
  (total_profit s = total_profit sel ->
   (length sel <= length s)%nat /\
   (length s = length sel -> total_weight sel <= total_weight s)).

(** The pallets that a list of ids names. *)
Definition named_items (pallets : list Pallet) (ids : list Z) : list Pallet :=
  filter (fun p => getID p ∈ ids) pallets.

(** *** Proof devices: the searches as recursions on the remaining pallets *)

Fixpoint bf_search (rest : list Pallet) (remainingCapacity currentProfit : Z)
    (currentSubset : list Z) (best : BFState) : BFState :=
  match rest with
  | [] => bf_leaf currentProfit currentSubset best
  | p :: rest' =>
      let best1 := bf_search rest' remainingCapacity currentProfit
                             currentSubset best in
      if getWeight p <=? remainingCapacity
      then bf_search rest' (remainingCapacity - getWeight p)
                     (currentProfit + getProfit p)
                     (currentSubset ++ [getID p]) best1
      else best1
  end.

Fixpoint bb_search (rest : list Pallet) (capacity currWeight currProfit : Z)
    (currSelection : list Z) (best : BBState) : BBState :=
  match rest with
  | [] => bb_leaf currWeight currProfit currSelection best
  | current :: rest' =>
      let best1 :=
        if currWeight + getWeight current <=? capacity
        then bb_search rest' capacity (currWeight + getWeight current)
                       (currProfit + getProfit current)
                       (currSelection ++ [getID current]) best
        else best in
      bb_search rest' capacity currWeight currProfit currSelection best1
  end.

(** The order of the terminal comparisons: [a] is at least as good as [b]. *)
Definition bf_ge (a b : BFState) : Prop :=
  bfProfit b < bfProfit a \/
  (bfProfit b = bfProfit a /\
   (length (bfSubset a) <= length (bfSubset b))%nat).

Definition bb_ge (a b : BBState) : Prop :=
  bestProfit b < bestProfit a \/
  (bestProfit b = bestProfit a /\
   ((length (bestSelection a) < length (bestSelection b))%nat \/
    (length (bestSelection a) = length (bestSelection b) /\
     bestWeight a <= bestWeight b))).

(** The candidate that a search reports at the leaf reached by choosing [s]
    among the remaining pallets. *)
Definition bf_cand (currentProfit : Z) (currentSubset : list Z)
    (s : list Pallet) : BFState :=
  mkBF (currentProfit + total_profit s) (currentSubset ++ map getID s).

Definition bb_cand (currWeight currProfit : Z) (currSelection : list Z)
    (s : list Pallet) : BBState :=
  mkBB (currSelection ++ map getID s) (currProfit + total_profit s)
       (currWeight + total_weight s).

(** The recurrence that the profit table stores: the value of [dp[i][w]]. *)
Fixpoint dp_value (pallets : list Pallet) (i : nat) (w : Z) : Z :=
  match i with
  | O => 0
  | S i' =>
      match pallets !! i' with
      | None => 0
      | Some p =>
          if getWeight p <=? w then
            let inclui := getProfit p + dp_value pallets i' (w - getWeight p) in
            let exclui := dp_value pallets i' w in
            if exclui <? inclui then inclui
            else if inclui <? exclui then exclui
            else inclui
          else dp_value pallets i' w
      end
  end.

(** The pallets that the backward walk records from row [i] and remaining
    capacity [w], in the order of the input. *)
Fixpoint dp_walk (pallets : list Pallet) (i : nat) (w : Z) : list Pallet :=
  match i with
  | O => []
  | S i' =>
      if 0 <? w then
        match pallets !! i' with
        | None => []
        | Some p =>
            if dp_value pallets (S i') w =? dp_value pallets i' w
            then dp_walk pallets i' w
            else dp_walk pallets i' (w - getWeight p) ++ [p]
        end
      else []
  end.

(** A table that holds the recurrence on rows [0..rows) and columns
    [0..cols). *)
Definition table_holds (pallets : list Pallet) (dp : list (list Z))
    (rows cols : nat) : Prop :=
  forall i w, (i < rows)%nat -> (w < cols)%nat ->
    tget dp i w = dp_value pallets i (Z.of_nat w).

Definition table_dims (t : list (list Z)) (rows cols : nat) : Prop :=
  length t = rows /\ Forall (fun row => length row = cols) t.

(** Rows [0..i] of a table with [cols] columns hold the recurrence. *)
Definition rows_hold (pallets : list Pallet) (cols : nat) (dp : list (list Z))
    (i : nat) : Prop :=
  forall i' w, (i' <= i)%nat -> (w < cols)%nat ->
    tget dp i' w = dp_value pallets i' (Z.of_nat w).

(** ** Further parts of the code *)

(** The two tables [(dp, count)] of [KDynamic] after its filling loops. *)
Definition KDynamic_tables (capacity : Z) (pallets : list Pallet)
  : list (list Z) * list (list Z) :=
  let n := length pallets in
  let cols := Z.to_nat (capacity + 1) in
  fill_tables pallets capacity (new_table (S n) cols, new_table (S n) cols).







(** ** reader.cpp

    A file is the text it holds ([None] when it cannot be opened), a stream
    is the text not yet read with its [eofbit] and [failbit].  An exception
    that nothing catches ends the program: a call either returns or
    throws. *)

Inductive exception := invalid_argument | out_of_range.

Inductive outcome (A : Type) :=
| Returned (a : A)
| Thrown (e : exception).
Arguments Returned {A} a.
Arguments Thrown {A} e.

Definition newline : ascii := ascii_of_N 10.
Definition comma : ascii := ascii_of_N 44.
Definition minus_sign : ascii := ascii_of_N 45.
Definition plus_sign : ascii := ascii_of_N 43.

(** [std::isspace] in the default "C" locale: space, and the characters
    from tab to carriage return. *)
Definition isspace (c : ascii) : bool :=
  let n := N_of_ascii c in
  ((n =? 32) || ((9 <=? n) && (n <=? 13)))%N.

Definition isdigit (c : ascii) : bool :=
  let n := N_of_ascii c in ((48 <=? n) && (n <=? 57))%N.

Definition digit_value (c : ascii) : Z := Z.of_N (N_of_ascii c) - 48.

Fixpoint skip_spaces (s : string) : string :=
  match s with
  | String c s' => if isspace c then skip_spaces s' else s
  | EmptyString => s
  end.

Fixpoint read_digits (s : string) (acc : Z) : Z :=
  match s with
  | String c s' =>
      if isdigit c then read_digits s' (10 * acc + digit_value c) else acc
  | EmptyString => acc
  end.

Definition INT_MIN : Z := -2147483648.

(** [std::stoi(str)]: base 10, no position requested.  As [strtol] does, it
    skips leading white space, takes an optional sign and the longest run
    of digits, and ignores what follows; it throws [invalid_argument] when
    there is no digit to convert and [out_of_range] when the value is not
    an [int]. *)
Definition stoi (str : string) : outcome Z :=
  let s := skip_spaces str in
  let '(negative, digits) :=
    match s with
    | String c r => if Ascii.eqb c minus_sign then (true, r)
                    else if Ascii.eqb c plus_sign then (false, r)
                    else (false, s)
    | EmptyString => (false, s)
    end in
  match digits with
  | String c _ =>
      if isdigit c then
        let magnitude := read_digits digits 0 in
        let value := if negative then - magnitude else magnitude in
        if (value <? INT_MIN) || (INT_MAX <? value) then Thrown out_of_range
        else Returned value
      else Thrown invalid_argument
  | EmptyString => Thrown invalid_argument
  end.

Record istream := mkStream
  { buffer : string; eofbit : bool; failbit : bool }.

Definition good (input : istream) : bool := negb (eofbit input) && negb (failbit input).

Definition open_stream (content : string) : istream :=
  mkStream content false false.

(** The characters before the first [delim], and what follows it when it
    occurs. *)
Fixpoint extract (s : string) (delim : ascii) : string * option string :=
  match s with
  | EmptyString => (EmptyString, None)
  | String c s' =>
      if Ascii.eqb c delim then (EmptyString, Some s')
      else let '(token, rest) := extract s' delim in (String c token, rest)
  end.

Definition is_empty (s : string) : bool :=
  match s with EmptyString => true | String _ _ => false end.

(** [std::getline(input, str, delim)]: the stream and the string after the
    call.  When the stream is not good the sentry fails: [failbit] is set
    and [str] is left as it was.  Otherwise [str] is erased and receives
    the characters up to the delimiter, which is discarded; reaching the end
    of the text sets [eofbit], and [failbit] too if nothing was
    extracted. *)
Definition getline (input : istream) (str : string) (delim : ascii)
  : istream * string :=
  if good input then
    match extract (buffer input) delim with
    | (token, Some rest) => (mkStream rest false false, token)
    | (token, None) => (mkStream EmptyString true (is_empty token), token)
    end
  else (mkStream (buffer input) (eofbit input) true, str).

(** The body of the loop of [loadPallets]: the three fields of a line.
    [token] is one variable, handed from a call of [getline] to the
    next. *)
Definition parse_pallet (line : string) : outcome Pallet :=
  let ss := open_stream line in
  let '(ss, token) := getline ss EmptyString comma in
  match stoi token with
  | Thrown e => Thrown e
  | Returned id =>
      let '(ss, token) := getline ss token comma in
      match stoi token with
      | Thrown e => Thrown e
      | Returned weight =>
          let '(ss, token) := getline ss token newline in
          match stoi token with
          | Thrown e => Thrown e
          | Returned profit => Returned (mkPallet id weight profit)
          end
      end
  end.

(** What is left to read bounds the number of turns of the loop. *)
Definition stream_measure (input : istream) : nat :=
  (String.length (buffer input) + if good input then 1 else 0)%nat.

Lemma extract_rest_shorter s delim token rest :
  extract s delim = (token, Some rest) ->
  (String.length rest < String.length s)%nat.
Proof.
  revert token. induction s as [|c s IH]; intros token; simpl.
  - discriminate.
  - destruct (Ascii.eqb c delim).
    + intros [= _ <-]. lia.
    + destruct (extract s delim) as [t r] eqn:He.
      intros Heq. injection Heq as _ Hr. subst r.
      specialize (IH t eq_refl). lia.
Qed.

Lemma getline_progress input str delim input' str' :
  getline input str delim = (input', str') -> failbit input' = false ->
  (stream_measure input' < stream_measure input)%nat.
Proof.
  unfold getline, stream_measure.
  destruct (good input) eqn:Hgood.
  - destruct (extract (buffer input) delim) as [token [rest|]] eqn:He.
    + intros [= <- _] _. simpl.
      pose proof (extract_rest_shorter _ _ _ _ He). lia.
    + intros [= <- _] _. simpl. lia.
  - intros [= <- _]. simpl. discriminate.
Qed.

(** [while (std::getline(file, line)) { ... pallets.push_back(p); }] *)
Equations? read_pallets (file : istream) (line : string)
    (pallets : list Pallet) : outcome (list Pallet)
    by wf (stream_measure file) lt :=
  read_pallets file line pallets
    with inspect (getline file line newline) := {
    | exist _ (file', line') Hget with inspect (failbit file') := {
      | exist _ true _ => Returned pallets
      | exist _ false Hok with parse_pallet line' := {
        | Thrown e => Thrown e
        | Returned p => read_pallets file' line' (pallets ++ [p]) } } }.
Proof.
  eapply getline_progress; eassumption.
Qed.

(** [loadPallets]: the returned flag and the vector after the call. *)
Definition loadPallets (file : option string) (pallets : list Pallet)
  : outcome (bool * list Pallet) :=
  match file with
  | None => Returned (false, pallets)
  | Some content =>
      let '(file, line) :=
        getline (open_stream content) EmptyString newline in
      match read_pallets file line pallets with
      | Thrown e => Thrown e
      | Returned pallets' => Returned (true, pallets')
      end
  end.

(** [loadTruckData]: the returned flag and the two references after the
    call. *)
Definition loadTruckData (file : option string) (capacity numPallets : Z)
  : outcome (bool * Z * Z) :=
  match file with
  | None => Returned (false, capacity, numPallets)
  | Some content =>
      let '(file, line) :=
        getline (open_stream content) EmptyString newline in
      let '(file, line) := getline file line newline in
      let ss := open_stream line in
      let '(ss, token) := getline ss EmptyString comma in
      match stoi token with
      | Thrown e => Thrown e
      | Returned capacity' =>
          let '(ss, token) := getline ss token newline in
          match stoi token with
          | Thrown e => Thrown e
          | Returned numPallets' => Returned (true, capacity', numPallets')
          end
      end
  end.

(** *** Decimal numerals, to state what the loader reads *)

Definition digit_char (d : Z) : ascii := ascii_of_N (Z.to_N (48 + d)).

Fixpoint show_digits (fuel : nat) (n : Z) (acc : string) : string :=
  let acc' := String (digit_char (n mod 10)) acc in
  match fuel with
  | O => acc'
  | S fuel' => if n <? 10 then acc' else show_digits fuel' (n / 10) acc'
  end.

Definition show_nat (n : Z) : string :=
  show_digits (Z.to_nat (Z.log2 n)) n EmptyString.

Definition show_int (z : Z) : string :=
  if z <? 0 then String minus_sign (show_nat (- z)) else show_nat z.

Definition in_int_range (z : Z) : Prop := INT_MIN <= z <= INT_MAX.

Definition pallet_in_int_range (p : Pallet) : Prop :=
  in_int_range (getID p) /\ in_int_range (getWeight p) /\
  in_int_range (getProfit p).

Fixpoint string_forall (P : ascii -> bool) (s : string) : bool :=
  match s with
  | EmptyString => true
  | String c s' => P c && string_forall P s'
  end.

Definition csv_fields (p : Pallet) : string :=
  (show_int (getID p) ++ String comma
     (show_int (getWeight p) ++ String comma (show_int (getProfit p))))%string.


Definition no_leading_digit (s : string) : Prop :=
  match s with
  | String c _ => isdigit c = false
  | EmptyString => True
  end.

Definition not_char (d : ascii) (c : ascii) : bool := negb (Ascii.eqb c d).

(** The text of a pallet file: a line for each pallet, with [eol] before
    each line break (nothing, or a carriage return). *)
Fixpoint csv_text (eol : string) (pallets : list Pallet) : string :=
  match pallets with
  | [] => EmptyString
  | p :: rest =>
      (csv_fields p ++ eol ++ String newline (csv_text eol rest))%string
  end.

(** ** main.cpp

    One turn of the loop of [main] for a menu choice other than 0, given
    what the two dataset files hold: [None] when a file cannot be read or
    the choice is not an option (the turn ends at [continue]), otherwise
    the name of the algorithm and the value printed as [Max profit].  The
    variables [capacity] and [numPallets] are not initialised in the source;
    they are read only after [loadTruckData] has set them. *)
Section Main.

Variable std_sort : list Pallet -> list Pallet.


End Main.

(** The text of a truck file: a header line, then the capacity and the
    number of pallets. *)
Definition truck_text (header : string) (capacity numPallets : Z)
    (eol : string) : string :=
  (header ++ String newline
     (show_int capacity ++ String comma (show_int numPallets ++ eol)))%string.

(** * Properties *)

(** ** Exhaustive search *)

Lemma total_weight_app l1 l2 :
  total_weight (l1 ++ l2) = total_weight l1 + total_weight l2.
Proof. induction l1 as [|p l1 IH]; simpl; lia. Qed.

Lemma total_profit_app l1 l2 :
  total_profit (l1 ++ l2) = total_profit l1 + total_profit l2.
Proof. induction l1 as [|p l1 IH]; simpl; lia. Qed.

Lemma total_weight_nonneg l : nonneg_items l -> 0 <= total_weight l.
Proof. induction 1 as [|p l [Hw Hp] Hl IH]; simpl; lia. Qed.

Lemma total_profit_nonneg l : nonneg_items l -> 0 <= total_profit l.
Proof. induction 1 as [|p l [Hw Hp] Hl IH]; simpl; lia. Qed.

Lemma Forall_sublist {A} (P : A -> Prop) (s l : list A) :
  s `sublist_of` l -> Forall P l -> Forall P s.
Proof.
  induction 1 as [|x s l Hs IH|x s l Hs IH]; intros Hl; auto.
  - inversion Hl; subst. constructor; auto.
  - inversion Hl; subst. auto.
Qed.


Lemma positive_weights_nonneg l : positive_weights l -> nonneg_items l.
Proof.
  intros H. eapply Forall_impl; [exact H|]. simpl. intros p [Hw Hp]. lia.
Qed.

Lemma knapsackRecursive_search pallets index rc cp cs best :
  knapsackRecursive pallets index rc cp cs best =
  bf_search (drop index pallets) rc cp cs best.
Proof.
  funelim (knapsackRecursive pallets index rc cp cs best).
  - rewrite (drop_S _ _ _ Hp). simpl.
    match goal with
    | IH : knapsackRecursive _ _ (_ - _) _ _ _ = _ |- _ => rewrite IH
    end.
    match goal with
    | IH : knapsackRecursive _ _ _ _ _ _ = bf_search _ _ _ _ _ |- _ =>
        rewrite IH
    end.
    reflexivity.
  - match goal with
    | Hn : _ !! _ = None |- _ =>
        rewrite (drop_ge _ _ (proj1 (lookup_ge_None _ _) Hn))
    end.
    reflexivity.
Qed.

Lemma bf_ge_refl a : bf_ge a a.
Proof. right. split; [reflexivity | lia]. Qed.

Lemma bf_ge_trans a b c : bf_ge a b -> bf_ge b c -> bf_ge a c.
Proof. unfold bf_ge. intros [?|[? ?]] [?|[? ?]]; [left|left|left|right]; lia. Qed.

Lemma bf_leaf_spec cp cs best :
  let r := bf_leaf cp cs best in
  bf_ge r best /\ bf_ge r (mkBF cp cs) /\ (r = best \/ r = mkBF cp cs).
Proof.
  unfold bf_leaf, bf_ge.
  destruct (Z.ltb_spec (bfProfit best) cp);
    destruct (Z.eqb_spec cp (bfProfit best));
    destruct (Nat.ltb_spec (length cs) (length (bfSubset best)));
    simpl; repeat split; auto; lia.
Qed.

(** The search from a node returns a state that is at least as good as the
    incoming best and as every candidate below the node, and that is the
    incoming best or one of these candidates. *)
Lemma bf_search_spec rest :
  Forall (fun p => 0 <= getWeight p) rest ->
  forall rc cp cs best, 0 <= rc ->
  let r := bf_search rest rc cp cs best in
  bf_ge r best /\
  (forall s, feasible rest rc s -> bf_ge r (bf_cand cp cs s)) /\
  (r = best \/ exists s, feasible rest rc s /\ r = bf_cand cp cs s).
Proof.
  induction 1 as [|p rest Hp Hrest IH]; intros rc cp cs best Hrc; simpl.
  - destruct (bf_leaf_spec cp cs best) as (Hb & Hc & Hr).
    assert (Hnil : bf_cand cp cs [] = mkBF cp cs).
    { unfold bf_cand. simpl. rewrite Z.add_0_r, app_nil_r. reflexivity. }
    split; [exact Hb|]. split.
    + intros s [Hs _]. apply sublist_nil_r in Hs. subst s.
      rewrite Hnil. exact Hc.
    + destruct Hr as [Hr|Hr]; [left; exact Hr|].
      right. exists []. rewrite Hnil. split; [|exact Hr].
      split; [constructor | simpl; lia].
  - destruct (IH rc cp cs best Hrc) as (Hb1 & Hc1 & Hr1).
    set (best1 := bf_search rest rc cp cs best) in *.
    assert (Hskip : forall s, feasible rest rc s -> feasible (p :: rest) rc s).
    { intros s [Hs Hw]. split; [constructor; exact Hs | exact Hw]. }
    destruct (Z.leb_spec (getWeight p) rc) as [Hfit|Hfit].
    + destruct (IH (rc - getWeight p) (cp + getProfit p) (cs ++ [getID p])
                   best1 ltac:(lia)) as (Hb2 & Hc2 & Hr2).
      set (r := bf_search rest _ _ _ best1) in *.
      assert (Hcons : forall s, bf_cand (cp + getProfit p) (cs ++ [getID p]) s
                                = bf_cand cp cs (p :: s)).
      { intros s. unfold bf_cand. simpl. rewrite <- app_assoc. simpl.
        f_equal. lia. }
      split; [eapply bf_ge_trans; eauto|]. split.
      * intros s [Hs Hw]. apply sublist_cons_r in Hs.
        destruct Hs as [Hs|(s' & -> & Hs)].
        -- eapply bf_ge_trans; [exact Hb2|]. apply Hc1. split; assumption.
        -- rewrite <- Hcons. apply Hc2. split; [exact Hs|].
           simpl in Hw. lia.
      * destruct Hr2 as [Hr2|(s & [Hs Hw] & Hr2)].
        -- rewrite Hr2. destruct Hr1 as [Hr1|(s & Hs & Hr1)];
             [left; exact Hr1 | right; exists s; auto].
        -- right. exists (p :: s). rewrite <- Hcons. split; [|exact Hr2].
           split; [constructor; exact Hs | simpl; lia].
    + split; [exact Hb1|]. split.
      * intros s [Hs Hw]. apply sublist_cons_r in Hs.
        destruct Hs as [Hs|(s' & -> & Hs)].
        -- apply Hc1. split; assumption.
        -- pose proof (Forall_sublist _ _ _ Hs Hrest) as Hnn.
           assert (0 <= total_weight s').
           { clear -Hnn. induction Hnn; simpl; lia. }
           simpl in Hw. lia.
      * destruct Hr1 as [Hr1|(s & Hs & Hr1)];
          [left; exact Hr1 | right; exists s; auto].
Qed.

Lemma nonneg_items_weights l :
  nonneg_items l -> Forall (fun p => 0 <= getWeight p) l.
Proof.
  intros H. eapply Forall_impl; [exact H|]. simpl. intros p [Hw _]. exact Hw.
Qed.

(** The exhaustive solver reports a feasible subset of maximum profit and,
    among these, of minimum cardinality. *)
Lemma KBruteForce_spec capacity pallets :
  0 <= capacity -> nonneg_items pallets ->
  exists sel,
    feasible pallets capacity sel /\
    KBruteForce capacity pallets = (total_profit sel, map getID sel) /\
    forall s, feasible pallets capacity s ->
      total_profit s <= total_profit sel /\
      (total_profit s = total_profit sel -> (length sel <= length s)%nat).
Proof.
  intros HC Hnn. unfold KBruteForce.
  rewrite knapsackRecursive_search, drop_0.
  destruct (bf_search_spec pallets (nonneg_items_weights _ Hnn)
              capacity 0 [] (mkBF 0 []) HC) as (_ & Hc & Hr).
  set (r := bf_search pallets capacity 0 [] (mkBF 0 [])) in *.
  assert (Hsel : exists sel, feasible pallets capacity sel /\
                             r = bf_cand 0 [] sel).
  { destruct Hr as [Hr|Hr]; [|exact Hr].
    exists []. split; [split; [apply sublist_nil_l | simpl; lia]|].
    rewrite Hr. reflexivity. }
  destruct Hsel as (sel & Hsel & Hr'). exists sel.
  split; [exact Hsel|]. split.
  - rewrite Hr'. unfold bf_cand. simpl. reflexivity.
  - intros s Hs. specialize (Hc s Hs). rewrite Hr' in Hc.
    unfold bf_ge, bf_cand in Hc. simpl in Hc.
    rewrite !length_map in Hc. lia.
Qed.

(** ** Branch and bound *)

Lemma branchAndBound_empty idx capacity cw cp cs best :
  branchAndBound [] idx capacity cw cp cs best = best.
Proof. simp branchAndBound. reflexivity. Qed.

Lemma branchAndBound_search pallets idx capacity cw cp cs best :
  pallets <> [] ->
  branchAndBound pallets idx capacity cw cp cs best =
  bb_search (drop idx pallets) capacity cw cp cs best.
Proof.
  funelim (branchAndBound pallets idx capacity cw cp cs best); intros Hne.
  - congruence.
  - rewrite (drop_S _ _ _ Hp). simpl.
    match goal with
    | IH : _ -> branchAndBound _ _ _ _ _ _ (if _ then _ else _) = _ |- _ =>
        rewrite (IH Hne)
    end.
    match goal with
    | IH : _ -> branchAndBound _ _ _ (_ + _) _ _ _ = _ |- _ =>
        rewrite (IH Hne)
    end.
    reflexivity.
  - match goal with
    | Hn : _ !! _ = None |- _ =>
        rewrite (drop_ge _ _ (proj1 (lookup_ge_None _ _) Hn))
    end.
    reflexivity.
Qed.

Lemma bb_ge_trans a b c : bb_ge a b -> bb_ge b c -> bb_ge a c.
Proof.
  unfold bb_ge.
  intros [?|[? [?|[? ?]]]] [?|[? [?|[? ?]]]];
    try (left; lia); right; (split; [lia|]);
    try (left; lia); right; lia.
Qed.

Lemma bb_leaf_spec cw cp cs best :
  let r := bb_leaf cw cp cs best in
  bb_ge r best /\ bb_ge r (mkBB cs cp cw) /\ (r = best \/ r = mkBB cs cp cw).
Proof.
  unfold bb_leaf, bb_ge.
  destruct (Z.ltb_spec (bestProfit best) cp);
    destruct (Z.eqb_spec cp (bestProfit best));
    destruct (Nat.ltb_spec (length cs) (length (bestSelection best)));
    destruct (Nat.eqb_spec (length cs) (length (bestSelection best)));
    destruct (Z.ltb_spec cw (bestWeight best));
    simpl; repeat split; auto; lia.
Qed.

(** The search from a node: as for the exhaustive search, with the
    three-level comparison.  The candidates below a node are the subsets of
    the remaining pallets that fit the capacity left. *)
Lemma bb_search_spec capacity rest :
  Forall (fun p => 0 <= getWeight p) rest ->
  forall cw cp cs best, cw <= capacity ->
  let r := bb_search rest capacity cw cp cs best in
  bb_ge r best /\
  (forall s, feasible rest (capacity - cw) s -> bb_ge r (bb_cand cw cp cs s)) /\
  (r = best \/
   exists s, feasible rest (capacity - cw) s /\ r = bb_cand cw cp cs s).
Proof.
  induction 1 as [|p rest Hp Hrest IH]; intros cw cp cs best Hcw; simpl.
  - destruct (bb_leaf_spec cw cp cs best) as (Hb & Hc & Hr).
    assert (Hnil : bb_cand cw cp cs [] = mkBB cs cp cw).
    { unfold bb_cand. simpl. rewrite !Z.add_0_r, app_nil_r. reflexivity. }
    split; [exact Hb|]. split.
    + intros s [Hs _]. apply sublist_nil_r in Hs. subst s.
      rewrite Hnil. exact Hc.
    + destruct Hr as [Hr|Hr]; [left; exact Hr|].
      right. exists []. rewrite Hnil. split; [|exact Hr].
      split; [constructor | simpl; lia].
  - assert (Hcons : forall s,
               bb_cand (cw + getWeight p) (cp + getProfit p)
                       (cs ++ [getID p]) s = bb_cand cw cp cs (p :: s)).
    { intros s. unfold bb_cand. simpl. rewrite <- app_assoc. simpl.
      f_equal; lia. }
    set (best1 := if cw + getWeight p <=? capacity then _ else best).
    assert (H1 : bb_ge best1 best /\
                 (forall s, feasible rest (capacity - cw - getWeight p) s ->
                            bb_ge best1 (bb_cand cw cp cs (p :: s))) /\
                 (best1 = best \/
                  exists s, feasible rest (capacity - cw - getWeight p) s /\
                            best1 = bb_cand cw cp cs (p :: s))).
    { subst best1. destruct (Z.leb_spec (cw + getWeight p) capacity) as [Hfit|Hfit].
      - destruct (IH (cw + getWeight p) (cp + getProfit p) (cs ++ [getID p])
                     best Hfit) as (Hb & Hc & Hr).
        replace (capacity - (cw + getWeight p))
          with (capacity - cw - getWeight p) in * by lia.
        split; [exact Hb|]. split.
        + intros s Hs. rewrite <- Hcons. apply Hc, Hs.
        + destruct Hr as [Hr|(s & Hs & Hr)]; [left; exact Hr|].
          right. exists s. rewrite <- Hcons. auto.
      - split; [right; split; [reflexivity | right; split; [reflexivity|lia]]|].
        split; [|left; reflexivity].
        intros s [Hs Hw].
        pose proof (Forall_sublist _ _ _ Hs Hrest) as Hnn.
        assert (0 <= total_weight s).
        { clear -Hnn. induction Hnn; simpl; lia. }
        lia. }
    destruct H1 as (Hb1 & Hc1 & Hr1).
    destruct (IH cw cp cs best1 Hcw) as (Hb2 & Hc2 & Hr2).
    set (r := bb_search rest capacity cw cp cs best1) in *.
    split; [eapply bb_ge_trans; eauto|]. split.
    + intros s [Hs Hw]. apply sublist_cons_r in Hs.
      destruct Hs as [Hs|(s' & -> & Hs)].
      * apply Hc2. split; assumption.
      * eapply bb_ge_trans; [exact Hb2|]. apply Hc1.
        split; [exact Hs | simpl in Hw; lia].
    + destruct Hr2 as [Hr2|(s & [Hs Hw] & Hr2)].
      * rewrite Hr2. destruct Hr1 as [Hr1|(s & [Hs Hw] & Hr1)];
          [left; exact Hr1|].
        right. exists (p :: s). split; [|exact Hr1].
        split; [constructor; exact Hs | simpl; lia].
      * right. exists s. split; [|exact Hr2].
        split; [constructor; exact Hs | exact Hw].
Qed.

(** Looking a pallet up by its id finds the pallet itself when ids are
    distinct. *)
Lemma find_if_elem pallets p :
  NoDup (map getID pallets) -> p ∈ pallets ->
  find_if (getID p) pallets = Some p.
Proof.
  induction pallets as [|q rest IH]; intros Hnd Hin.
  - inversion Hin.
  - simpl. inversion Hnd as [|x xs Hq Hrest]; subst.
    apply elem_of_cons in Hin. destruct Hin as [->|Hin].
    + rewrite Z.eqb_refl. reflexivity.
    + destruct (Z.eqb_spec (getID q) (getID p)) as [Heq|Hneq]; [|auto].
      exfalso. apply Hq. rewrite Heq.
      apply list_elem_of_In, in_map, list_elem_of_In, Hin.
Qed.

Lemma ilp_weight_sel pallets sel :
  NoDup (map getID pallets) -> sel `sublist_of` pallets ->
  ilp_weight pallets (map getID sel) = total_weight sel.
Proof.
  intros Hnd Hsel. unfold ilp_weight.
  assert (Hgen : forall acc,
             fold_left (fun acc id => match find_if id pallets with
                                      | Some it => acc + getWeight it
                                      | None => acc
                                      end) (map getID sel) acc
             = acc + total_weight sel).
  { assert (Hin : Forall (fun p => p ∈ pallets) sel).
    { apply Forall_forall. intros p Hp. eapply elem_of_sublist; eauto. }
    clear Hsel. induction Hin as [|p sel Hp Hin IH]; intros acc; simpl.
    - lia.
    - rewrite (find_if_elem _ _ Hnd Hp), IH. lia. }
  apply Hgen.
Qed.

Lemma solveILP_spec pallets capacity :
  0 <= capacity -> nonneg_items pallets ->
  exists sel,
    feasible pallets capacity sel /\
    solveILP pallets capacity =
      mkILP (map getID sel) (total_profit sel)
            (ilp_weight pallets (map getID sel)) /\
    forall s, feasible pallets capacity s -> ilp_prefers sel s.
Proof.
  intros HC Hnn. unfold solveILP.
  destruct pallets as [|p0 rest].
  - rewrite branchAndBound_empty. simpl. exists [].
    split; [split; [constructor | simpl; lia]|]. split; [reflexivity|].
    intros s [Hs _]. apply sublist_nil_r in Hs. subst s.
    unfold ilp_prefers. simpl. lia.
  - set (pallets := p0 :: rest) in *.
    rewrite branchAndBound_search, drop_0 by discriminate.
    destruct (bb_search_spec capacity pallets (nonneg_items_weights _ Hnn)
                0 0 [] (mkBB [] 0 INT_MAX) HC) as (_ & Hc & Hr).
    rewrite Z.sub_0_r in Hc, Hr.
    set (r := bb_search pallets capacity 0 0 [] (mkBB [] 0 INT_MAX)) in *.
    assert (Hsel : exists sel, feasible pallets capacity sel /\
                               r = bb_cand 0 0 [] sel).
    { destruct Hr as [Hr|Hr]; [|exact Hr]. exfalso.
      assert (Hempty : feasible pallets capacity []).
      { split; [apply sublist_nil_l | simpl; lia]. }
      specialize (Hc [] Hempty). rewrite Hr in Hc.
      unfold bb_ge, bb_cand, INT_MAX in Hc. simpl in Hc. lia. }
    destruct Hsel as (sel & Hsel & Hr'). exists sel.
    split; [exact Hsel|]. split.
    + rewrite Hr'. unfold bb_cand. simpl. reflexivity.
    + intros s Hs. specialize (Hc s Hs). rewrite Hr' in Hc.
      unfold bb_ge, bb_cand in Hc. simpl in Hc.
      rewrite !length_map in Hc. unfold ilp_prefers. lia.
Qed.



(** ** Dynamic programming: the tables *)

Lemma tget_new_table rows cols i w : tget (new_table rows cols) i w = 0.
Proof.
  unfold tget, new_table.
  destruct (replicate rows (replicate cols 0) !! i) as [row|] eqn:Hrow;
    [|reflexivity].
  apply lookup_replicate_1 in Hrow. destruct Hrow as [-> _].
  destruct (replicate cols 0 !! w) as [v|] eqn:Hv; [|reflexivity].
  apply lookup_replicate_1 in Hv. destruct Hv as [-> _]. reflexivity.
Qed.

Lemma table_dims_new_table rows cols :
  table_dims (new_table rows cols) rows cols.
Proof.
  unfold table_dims, new_table. split.
  - apply length_replicate.
  - apply Forall_replicate, length_replicate.
Qed.

Lemma table_dims_tset t rows cols i w v :
  table_dims t rows cols -> table_dims (tset t i w v) rows cols.
Proof.
  unfold table_dims, tset. intros [Hlen Hrows]. split.
  - rewrite length_alter. exact Hlen.
  - apply Forall_alter; [exact Hrows|].
    intros row _ Hrow. rewrite length_insert. exact Hrow.
Qed.

Lemma tget_tset_same t rows cols i w v :
  table_dims t rows cols -> (i < rows)%nat -> (w < cols)%nat ->
  tget (tset t i w v) i w = v.
Proof.
  unfold table_dims, tget, tset. intros [Hlen Hrows] Hi Hw.
  rewrite list_lookup_alter_eq.
  destruct (lookup_lt_is_Some_2 t i ltac:(lia)) as [row Hrow].
  rewrite Hrow. simpl.
  rewrite Forall_forall in Hrows.
  pose proof (Hrows row (list_elem_of_lookup_2 _ _ _ Hrow)) as Hr.
  rewrite list_lookup_insert_eq by lia. reflexivity.
Qed.

Lemma tget_tset_other t i w v i' w' :
  i <> i' \/ w <> w' -> tget (tset t i w v) i' w' = tget t i' w'.
Proof.
  unfold tget, tset. intros Hne.
  destruct (decide (i = i')) as [<-|Hi].
  - rewrite list_lookup_alter_eq. destruct (t !! i) as [row|]; [|reflexivity].
    simpl. rewrite list_lookup_insert_ne by tauto. reflexivity.
  - rewrite list_lookup_alter_ne by exact Hi. reflexivity.
Qed.

(** The count table has no influence on the profit table. *)
Lemma fill_cell_fst pallets i w t :
  fst (fill_cell pallets i w t) = fill_cell_nocount pallets i w (fst t).
Proof.
  destruct t as [dp count]. unfold fill_cell, fill_cell_nocount. simpl.
  destruct (pallets !! (i - 1)%nat) as [p|]; [|reflexivity].
  destruct (getWeight p <=? Z.of_nat w); [|reflexivity].
  destruct (_ <? _); [reflexivity|].
  destruct (_ <? _); reflexivity.
Qed.

Lemma fill_row_fst pallets capacity i t :
  fst (fill_row pallets capacity i t) =
  fill_row_nocount pallets capacity i (fst t).
Proof.
  unfold fill_row, fill_row_nocount.
  generalize (seq 0 (Z.to_nat (capacity + 1))). intros ws. revert t.
  induction ws as [|w ws IH]; intros t; simpl; [reflexivity|].
  rewrite IH, fill_cell_fst. reflexivity.
Qed.

Lemma fill_tables_fst pallets capacity t :
  fst (fill_tables pallets capacity t) =
  fill_tables_nocount pallets capacity (fst t).
Proof.
  unfold fill_tables, fill_tables_nocount.
  generalize (seq 1 (length pallets)). intros rows. revert t.
  induction rows as [|i rows IH]; intros t; simpl; [reflexivity|].
  rewrite IH, fill_row_fst. reflexivity.
Qed.

Lemma KDynamic_unfold capacity pallets :
  KDynamic capacity pallets =
  let n := length pallets in
  let dp := fill_tables_nocount pallets capacity
              (new_table (S n) (Z.to_nat (capacity + 1))) in
  (tget dp n (Z.to_nat capacity), rev (reconstruct pallets dp n capacity [])).
Proof.
  unfold KDynamic. cbv zeta.
  pose proof (fill_tables_fst pallets capacity
    (new_table (S (length pallets)) (Z.to_nat (capacity + 1)),
     new_table (S (length pallets)) (Z.to_nat (capacity + 1)))) as Hfst.
  destruct (fill_tables pallets capacity _) as [dp count].
  simpl in Hfst. rewrite <- Hfst. reflexivity.
Qed.

Section FillInvariant.

Variable pallets : list Pallet.
Variable cols : nat.
Hypothesis pallets_nonneg : Forall (fun p => 0 <= getWeight p) pallets.

Local Abbreviation rows_hold := (rows_hold pallets cols).

Lemma fill_cell_nocount_value dp i p w :
  pallets !! i = Some p -> rows_hold dp i -> (w < cols)%nat ->
  fill_cell_nocount pallets (S i) w dp =
  tset dp (S i) w (dp_value pallets (S i) (Z.of_nat w)).
Proof.
  intros Hp Hrows Hw. unfold fill_cell_nocount.
  replace (S i - 1)%nat with i by lia. simpl dp_value. rewrite Hp.
  assert (0 <= getWeight p) as Hnn.
  { rewrite Forall_forall in pallets_nonneg. apply pallets_nonneg.
    eapply list_elem_of_lookup_2; eauto. }
  destruct (Z.leb_spec (getWeight p) (Z.of_nat w)) as [Hfit|Hfit].
  - cbv zeta. rewrite !Hrows by lia. rewrite Z2Nat.id by lia.
    destruct (_ <? _); [reflexivity|]. destruct (_ <? _); reflexivity.
  - rewrite Hrows by lia. reflexivity.
Qed.

Lemma fill_row_cells dims_rows i p ws :
  pallets !! i = Some p -> (S i < dims_rows)%nat ->
  Forall (fun w => (w < cols)%nat) ws ->
  forall dp, table_dims dp dims_rows cols -> rows_hold dp i ->
  let dp' := fold_left (fun t w => fill_cell_nocount pallets (S i) w t)
                       ws dp in
  table_dims dp' dims_rows cols /\ rows_hold dp' i /\
  forall w, (w < cols)%nat ->
    w ∈ ws \/ tget dp (S i) w = dp_value pallets (S i) (Z.of_nat w) ->
    tget dp' (S i) w = dp_value pallets (S i) (Z.of_nat w).
Proof.
  intros Hp Hi. induction 1 as [|w0 ws Hw0 Hws IH]; intros dp Hdims Hrows.
  - simpl. split; [exact Hdims|]. split; [exact Hrows|].
    intros w Hw [Hin|Hok]; [inversion Hin | exact Hok].
  - simpl. rewrite (fill_cell_nocount_value dp i p w0 Hp Hrows Hw0).
    set (dp1 := tset dp (S i) w0 _).
    assert (Hdims1 : table_dims dp1 dims_rows cols)
      by (apply table_dims_tset, Hdims).
    assert (Hrows1 : rows_hold dp1 i).
    { intros i' w Hi' Hw. unfold dp1.
      rewrite tget_tset_other by lia. apply Hrows; assumption. }
    destruct (IH dp1 Hdims1 Hrows1) as (Hd & Hr & Hc).
    split; [exact Hd|]. split; [exact Hr|].
    intros w Hw Hcase. apply Hc; [exact Hw|].
    destruct (decide (w = w0)) as [->|Hne].
    + right. unfold dp1.
      apply (tget_tset_same dp dims_rows cols); assumption.
    + destruct Hcase as [Hin|Hok].
      * left. apply elem_of_cons in Hin. tauto.
      * right. unfold dp1. rewrite tget_tset_other by lia. exact Hok.
Qed.

Lemma fill_row_nocount_holds capacity dims_rows i p dp :
  cols = Z.to_nat (capacity + 1) ->
  pallets !! i = Some p -> (S i < dims_rows)%nat ->
  table_dims dp dims_rows cols -> rows_hold dp i ->
  table_dims (fill_row_nocount pallets capacity (S i) dp) dims_rows cols /\
  rows_hold (fill_row_nocount pallets capacity (S i) dp) (S i).
Proof.
  intros Hcols Hp Hi Hdims Hrows. unfold fill_row_nocount.
  rewrite <- Hcols.
  destruct (fill_row_cells dims_rows i p (seq 0 cols) Hp Hi) with (dp := dp)
    as (Hd & Hr & Hc); try assumption.
  { apply Forall_forall. intros w Hw. apply elem_of_seq in Hw. lia. }
  split; [exact Hd|].
  intros i' w Hi' Hw. destruct (decide (i' = S i)) as [->|Hne].
  - apply Hc; [exact Hw|]. left. apply elem_of_seq. lia.
  - apply Hr; [lia | exact Hw].
Qed.

Lemma fill_rows_hold capacity dims_rows k :
  cols = Z.to_nat (capacity + 1) ->
  forall a dp, (a + k < dims_rows)%nat -> (a + k <= length pallets)%nat ->
  table_dims dp dims_rows cols -> rows_hold dp a ->
  rows_hold (fold_left (fun t i => fill_row_nocount pallets capacity i t)
                       (seq (S a) k) dp) (a + k).
Proof.
  intros Hcols. induction k as [|k IH]; intros a dp Hrows Hlen Hdims Hhold.
  - simpl. rewrite Nat.add_0_r. exact Hhold.
  - simpl.
    destruct (lookup_lt_is_Some_2 pallets a ltac:(lia)) as [p Hp].
    destruct (fill_row_nocount_holds capacity dims_rows a p dp Hcols Hp
                ltac:(lia) Hdims Hhold) as (Hd & Hr).
    replace (a + S k)%nat with (S a + k)%nat by lia.
    apply IH; try assumption; lia.
Qed.

End FillInvariant.

(** After the filling loops the profit table holds the recurrence. *)
Lemma fill_tables_nocount_holds pallets capacity :
  Forall (fun p => 0 <= getWeight p) pallets ->
  table_holds pallets
    (fill_tables_nocount pallets capacity
       (new_table (S (length pallets)) (Z.to_nat (capacity + 1))))
    (S (length pallets)) (Z.to_nat (capacity + 1)).
Proof.
  intros Hnn i w Hi Hw. unfold fill_tables_nocount.
  apply (fill_rows_hold pallets (Z.to_nat (capacity + 1)) Hnn capacity
           (S (length pallets)) (length pallets) eq_refl 0%nat);
    try lia.
  - apply table_dims_new_table.
  - intros i' w' Hi' Hw'. replace i' with 0%nat by lia.
    rewrite tget_new_table. reflexivity.
Qed.

(** ** Dynamic programming: the recurrence computes the optimum *)


Lemma weights_nonneg_total l :
  Forall (fun p => 0 <= getWeight p) l -> 0 <= total_weight l.
Proof. induction 1; simpl; lia. Qed.

Lemma dp_value_optimum pallets :
  Forall (fun p => 0 <= getWeight p) pallets ->
  forall i w, (i <= length pallets)%nat -> 0 <= w ->
    is_optimum (take i pallets) w (dp_value pallets i w).
Proof.
  intros Hnn. induction i as [|i IH]; intros w Hi Hw.
  - rewrite take_0. simpl. split.
    + exists []. split; [split; [constructor | simpl; lia] | reflexivity].
    + intros s [Hs _]. apply sublist_nil_r in Hs. subst s. simpl. lia.
  - simpl dp_value.
    destruct (lookup_lt_is_Some_2 pallets i ltac:(lia)) as [p Hp].
    rewrite Hp, (take_S_r _ _ _ Hp).
    specialize (IH w ltac:(lia) Hw) as IHw.
    assert (Hpw : 0 <= getWeight p).
    { rewrite Forall_forall in Hnn. apply Hnn.
      eapply list_elem_of_lookup_2; eauto. }
    assert (Hsplit : forall s, s `sublist_of` take i pallets ++ [p] ->
              s `sublist_of` take i pallets \/
              exists s', s = s' ++ [p] /\ s' `sublist_of` take i pallets).
    { intros s Hs. apply sublist_app_r in Hs.
      destruct Hs as (l1 & l2 & -> & Hl1 & Hl2).
      apply sublist_cons_r in Hl2. destruct Hl2 as [Hl2|(l' & -> & Hl2)];
        apply sublist_nil_r in Hl2; subst.
      - left. rewrite app_nil_r. exact Hl1.
      - right. exists l1. auto. }
    assert (Hexcl : forall s, feasible (take i pallets) w s ->
                              feasible (take i pallets ++ [p]) w s).
    { intros s [Hs Hsw]. split; [|exact Hsw].
      apply sublist_inserts_r. exact Hs. }
    destruct IHw as [(s0 & Hs0 & Hv0) Hub0].
    destruct (Z.leb_spec (getWeight p) w) as [Hfit|Hfit].
    + destruct (IH (w - getWeight p) ltac:(lia) ltac:(lia))
        as [(s1 & [Hs1 Hw1] & Hv1) Hub1].
      cbv zeta.
      set (inclui := getProfit p + dp_value pallets i (w - getWeight p)) in *.
      set (exclui := dp_value pallets i w) in *.
      assert (Hincl : feasible (take i pallets ++ [p]) w (s1 ++ [p]) /\
                      total_profit (s1 ++ [p]) = inclui).
      { split; [split|].
        - apply sublist_app; [exact Hs1 | reflexivity].
        - rewrite total_weight_app. simpl. lia.
        - rewrite total_profit_app. simpl. unfold inclui. lia. }
      assert (Hub : forall s, feasible (take i pallets ++ [p]) w s ->
                              total_profit s <= Z.max inclui exclui).
      { intros s [Hs Hsw]. destruct (Hsplit s Hs) as [Hs'|(s' & -> & Hs')].
        - pose proof (Hub0 s (conj Hs' Hsw)). unfold exclui. lia.
        - rewrite total_weight_app in Hsw. simpl in Hsw.
          rewrite total_profit_app. simpl.
          assert (Hfs : feasible (take i pallets) (w - getWeight p) s')
            by (split; [exact Hs' | lia]).
          pose proof (Hub1 s' Hfs). unfold inclui. lia. }
      destruct (Z.ltb_spec exclui inclui) as [H1|H1];
        [|destruct (Z.ltb_spec inclui exclui) as [H2|H2]].
      * split; [exists (s1 ++ [p]); exact Hincl|].
        intros s Hs. specialize (Hub s Hs). lia.
      * split; [exists s0; split; [apply Hexcl, Hs0 | exact Hv0]|].
        intros s Hs. specialize (Hub s Hs). lia.
      * split; [exists (s1 ++ [p]); exact Hincl|].
        intros s Hs. specialize (Hub s Hs). lia.
    + split; [exists s0; split; [apply Hexcl, Hs0 | exact Hv0]|].
      intros s [Hs Hsw]. destruct (Hsplit s Hs) as [Hs'|(s' & -> & Hs')].
      * apply Hub0. split; assumption.
      * rewrite total_weight_app in Hsw. simpl in Hsw.
        assert (0 <= total_weight s').
        { apply weights_nonneg_total. eapply Forall_sublist; [exact Hs'|].
          eapply Forall_sublist; [apply sublist_take | exact Hnn]. }
        lia.
Qed.

Lemma KDynamic_profit capacity pallets :
  0 <= capacity -> nonneg_items pallets ->
  fst (KDynamic capacity pallets) =
  dp_value pallets (length pallets) capacity.
Proof.
  intros HC Hnn. rewrite KDynamic_unfold. cbv zeta. simpl fst.
  rewrite (fill_tables_nocount_holds pallets capacity
             (nonneg_items_weights _ Hnn)) by lia.
  rewrite Z2Nat.id by lia. reflexivity.
Qed.

Lemma KDynamic_optimum capacity pallets :
  0 <= capacity -> nonneg_items pallets ->
  is_optimum pallets capacity (fst (KDynamic capacity pallets)).
Proof.
  intros HC Hnn. rewrite KDynamic_profit by assumption.
  rewrite <- (take_ge pallets (length pallets)) at 1 by lia.
  apply dp_value_optimum; [apply nonneg_items_weights, Hnn | lia | exact HC].
Qed.


(** ** Dynamic programming: the backward walk *)

Lemma dp_value_step_neq pallets i p w :
  pallets !! i = Some p ->
  dp_value pallets (S i) w <> dp_value pallets i w ->
  getWeight p <= w /\
  dp_value pallets (S i) w =
    getProfit p + dp_value pallets i (w - getWeight p).
Proof.
  intros Hp. simpl. rewrite Hp.
  destruct (Z.leb_spec (getWeight p) w) as [Hfit|Hfit]; [|congruence].
  cbv zeta.
  destruct (Z.ltb_spec (dp_value pallets i w)
              (getProfit p + dp_value pallets i (w - getWeight p)));
    [auto|].
  destruct (Z.ltb_spec (getProfit p + dp_value pallets i (w - getWeight p))
              (dp_value pallets i w)); [congruence | auto].
Qed.

Lemma dp_walk_S pallets i w :
  dp_walk pallets (S i) w =
  if 0 <? w then
    match pallets !! i with
    | None => []
    | Some p =>
        if dp_value pallets (S i) w =? dp_value pallets i w
        then dp_walk pallets i w
        else dp_walk pallets i (w - getWeight p) ++ [p]
    end
  else [].
Proof. reflexivity. Qed.

Lemma reconstruct_walk pallets dp rows cols :
  table_holds pallets dp rows cols ->
  Forall (fun p => 0 <= getWeight p) pallets ->
  forall i w acc, (i < rows)%nat -> 0 <= w -> (Z.to_nat w < cols)%nat ->
    reconstruct pallets dp i w acc =
    acc ++ rev (map getID (dp_walk pallets i w)).
Proof.
  intros Hdp Hnn. induction i as [|i IH]; intros w acc Hi Hw Hcols.
  - simpl. rewrite app_nil_r. reflexivity.
  - simpl reconstruct. rewrite dp_walk_S.
    destruct (0 <? w); [|simpl; rewrite app_nil_r; reflexivity].
    destruct (pallets !! i) as [p|] eqn:Hp;
      [|simpl; rewrite app_nil_r; reflexivity].
    rewrite !Hdp by lia. rewrite Z2Nat.id by lia.
    destruct (Z.eqb_spec (dp_value pallets (S i) w) (dp_value pallets i w))
      as [Heq|Hneq].
    + apply IH; lia.
    + destruct (dp_value_step_neq pallets i p w Hp Hneq) as [Hfit _].
      assert (0 <= getWeight p).
      { rewrite Forall_forall in Hnn. apply Hnn.
        eapply list_elem_of_lookup_2; eauto. }
      rewrite IH by lia.
      rewrite map_app, rev_app_distr, <- app_assoc. reflexivity.
Qed.

Lemma dp_walk_sublist pallets i w :
  dp_walk pallets i w `sublist_of` take i pallets.
Proof.
  revert w. induction i as [|i IH]; intros w.
  - apply sublist_nil_l.
  - rewrite dp_walk_S. destruct (0 <? w); [|apply sublist_nil_l].
    destruct (pallets !! i) as [p|] eqn:Hp; [|apply sublist_nil_l].
    rewrite (take_S_r _ _ _ Hp).
    destruct (_ =? _).
    + apply sublist_inserts_r, IH.
    + apply sublist_app; [apply IH | reflexivity].
Qed.

Lemma dp_walk_weight pallets i w :
  0 <= w -> total_weight (dp_walk pallets i w) <= w.
Proof.
  revert w. induction i as [|i IH]; intros w Hw.
  - simpl. lia.
  - rewrite dp_walk_S. destruct (0 <? w); [|simpl; lia].
    destruct (pallets !! i) as [p|] eqn:Hp; [|simpl; lia].
    destruct (Z.eqb_spec (dp_value pallets (S i) w) (dp_value pallets i w))
      as [Heq|Hneq].
    + apply IH, Hw.
    + destruct (dp_value_step_neq pallets i p w Hp Hneq) as [Hfit _].
      rewrite total_weight_app. simpl.
      pose proof (IH (w - getWeight p) ltac:(lia)). lia.
Qed.



(** The selection that [KDynamic] prints is the backward walk. *)
Lemma KDynamic_selection capacity pallets :
  0 <= capacity -> nonneg_items pallets ->
  snd (KDynamic capacity pallets) =
  map getID (dp_walk pallets (length pallets) capacity).
Proof.
  intros HC Hnn. rewrite KDynamic_unfold. cbv zeta. simpl snd.
  rewrite (reconstruct_walk pallets _ _ _
             (fill_tables_nocount_holds pallets capacity
                (nonneg_items_weights _ Hnn)))
    by (try apply nonneg_items_weights; try assumption; lia).
  simpl. apply rev_involutive.
Qed.

(** ** Greedy approximation *)



Lemma greedy_fold_spec capacity l :
  forall tp tw ids, tw <= capacity ->
  exists s,
    s `sublist_of` l /\
    fold_left (greedy_step capacity) l (tp, tw, ids) =
      (tp + total_profit s, tw + total_weight s, ids ++ map getID s) /\
    tw + total_weight s <= capacity.
Proof.
  induction l as [|p l IH]; intros tp tw ids Htw; simpl.
  - exists []. simpl. rewrite !Z.add_0_r, app_nil_r.
    split; [constructor|]. split; [reflexivity | lia].
  - destruct (Z.leb_spec (tw + getWeight p) capacity) as [Hfit|Hfit].
    + destruct (IH (tp + getProfit p) (tw + getWeight p) (ids ++ [getID p])
                   Hfit) as (s & Hs & Hfold & Hle).
      exists (p :: s). split; [constructor; exact Hs|].
      rewrite Hfold. simpl. rewrite <- app_assoc. simpl.
      rewrite !Z.add_assoc. split; [reflexivity | lia].
    + destruct (IH tp tw ids Htw) as (s & Hs & Hfold & Hle).
      exists s. split; [constructor; exact Hs|]. auto.
Qed.

Section GreedyProperties.

Variable std_sort : list Pallet -> list Pallet.
Hypothesis std_sort_perm : forall l, Permutation (std_sort l) l.


End GreedyProperties.

Lemma insert_by_ratio_perm p l : Permutation (insert_by_ratio p l) (p :: l).
Proof.
  induction l as [|q l IH]; simpl; [reflexivity|].
  destruct (ratio_gt q p); [|reflexivity].
  rewrite IH. apply perm_swap.
Qed.

Lemma insertion_sort_perm l : Permutation (insertion_sort l) l.
Proof.
  induction l as [|p l IH]; simpl; [reflexivity|].
  rewrite insert_by_ratio_perm. constructor. exact IH.
Qed.

Lemma positive_weights_fit_nothing l s :
  positive_weights l -> s `sublist_of` l -> total_weight s <= 0 -> s = [].
Proof.
  intros Hpos Hs Hw. destruct s as [|p s]; [reflexivity|]. exfalso.
  pose proof (Forall_sublist _ _ _ Hs Hpos) as Hps.
  inversion Hps as [|x xs [Hp _] Hrest]; subst.
  pose proof (total_weight_nonneg s (positive_weights_nonneg _ Hrest)).
  simpl in Hw. lia.
Qed.

Lemma positive_weights_Permutation l1 l2 :
  Permutation l1 l2 -> positive_weights l2 -> positive_weights l1.
Proof. unfold positive_weights. intros Hperm. rewrite Hperm. auto. Qed.

(** ** The claims *)


(** The two solvers may report different optimal selections: with two
    pallets of weight 2 and profit 4 and capacity 2, both return profit 4,
    the exhaustive search with pallet 2 and the table walk with pallet 1. *)
Example selections_may_differ :
  KBruteForce 2 [mkPallet 1 2 4; mkPallet 2 2 4] = (4, [2]) /\
  KDynamic 2 [mkPallet 1 2 4; mkPallet 2 2 4] = (4, [1]).
Proof. split; vm_compute; reflexivity. Qed.

Lemma nonneg_items9 : nonneg_items items9.
Proof. repeat constructor; simpl; lia. Qed.





Lemma NoDup_ids_items9 : NoDup (map getID items9).
Proof.
  simpl. repeat constructor;
    intros H; apply list_elem_of_In in H; simpl in H; lia.
Qed.



Lemma positive_weights_items9 : positive_weights items9.
Proof. repeat constructor; simpl; lia. Qed.




(** The tie-breaks of the two searches differ: with pallets [{1, w=1, p=4}]
    and [{2, w=2, p=4}] and capacity 2, the exhaustive search keeps the
    pallet found first, the branch and bound the lighter one. *)
Example tie_breaks_differ :
  KBruteForce 2 [mkPallet 1 1 4; mkPallet 2 2 4] = (4, [2]) /\
  solveILP [mkPallet 1 1 4; mkPallet 2 2 4] 2 = mkILP [1] 4 1.
Proof. split; vm_compute; reflexivity. Qed.


(** C6 on the input capacity 0, [{id=1, weight=0, profit=5}] (non-negative
    weight and profit): the backward walk stops at once because [w] is 0,
    so [KDynamic] returns the profit 5 with an empty selection, and no
    subset of the input that the selection names has total profit
    [dp[n][C] = 5].  The exhaustive solver reports the pallet 1 on the same
    input. *)
Theorem KDynamic_zero_weight_selection :
  let items := [mkPallet 1 0 5] in
  nonneg_items items /\
  KDynamic 0 items = (5, []) /\
  KBruteForce 0 items = (5, [1]) /\
  ~ (exists sel,
       sel `sublist_of` items /\
       snd (KDynamic 0 items) = map getID sel /\
       total_weight sel <= 0 /\
       total_profit sel = fst (KDynamic 0 items)).
Proof.
  cbv zeta. split; [repeat constructor; simpl; lia|].
  split; [vm_compute; reflexivity|]. split; [vm_compute; reflexivity|].
  intros (sel & _ & Hids & _ & Hprofit).
  vm_compute in Hids. destruct sel; [|discriminate].
  vm_compute in Hprofit. discriminate.
Qed.

(** C7, as stated, fails: a pallet of weight 0 fits a truck of capacity 0,
    and [KBruteForce] selects [{id=1, weight=0, profit=5}]. *)
Lemma capacity_zero_zero_weight_counterexample :
  ~ (forall std_sort : list Pallet -> list Pallet,
       (forall l, Permutation (std_sort l) l) ->
       forall items, items <> [] -> nonneg_items items ->
         KBruteForce 0 items = (0, []) /\
         KDynamic 0 items = (0, []) /\
         KProxy std_sort 0 items = (0, []) /\
         solveILP items 0 = mkILP [] 0 0).
Proof.
  intros Hclaim.
  destruct (Hclaim insertion_sort insertion_sort_perm [mkPallet 1 0 5])
    as (Hbf & _).
  - discriminate.
  - repeat constructor; simpl; lia.
  - vm_compute in Hbf. discriminate.
Qed.

(** C7, amended: for every non-empty list of items with positive weights
    and non-negative profits, each of the four solvers called with
    capacity 0 returns profit 0 and an empty selection. *)
Theorem capacity_zero_selects_nothing
    (std_sort : list Pallet -> list Pallet) items :
  (forall l, Permutation (std_sort l) l) ->
  items <> [] -> positive_weights items ->
  KBruteForce 0 items = (0, []) /\
  KDynamic 0 items = (0, []) /\
  KProxy std_sort 0 items = (0, []) /\
  solveILP items 0 = mkILP [] 0 0.
Proof.
  intros Hperm _ Hpos.
  pose proof (positive_weights_nonneg _ Hpos) as Hnn.
  split; [|split; [|split]].
  - destruct (KBruteForce_spec 0 items ltac:(lia) Hnn)
      as (sel & [Hs Hw] & Hr & _).
    rewrite (positive_weights_fit_nothing _ _ Hpos Hs Hw) in Hr. exact Hr.
  - rewrite (surjective_pairing (KDynamic 0 items)). f_equal.
    + destruct (KDynamic_optimum 0 items ltac:(lia) Hnn)
        as [(s & [Hs Hw] & Hv) _].
      rewrite (positive_weights_fit_nothing _ _ Hpos Hs Hw) in Hv.
      symmetry. exact Hv.
    + rewrite KDynamic_selection by (assumption || lia).
      destruct (length items); reflexivity.
  - unfold KProxy. cbv zeta.
    destruct (greedy_fold_spec 0 (std_sort items) 0 0 [] ltac:(lia))
      as (s & Hs & Hfold & Hw).
    rewrite (positive_weights_fit_nothing (std_sort items) s) in Hfold.
    + rewrite Hfold. reflexivity.
    + eapply positive_weights_Permutation; [apply Hperm | exact Hpos].
    + exact Hs.
    + lia.
  - destruct (solveILP_spec items 0 ltac:(lia) Hnn)
      as (sel & [Hs Hw] & Hr & _).
    rewrite (positive_weights_fit_nothing _ _ Hpos Hs Hw) in Hr. exact Hr.
Qed.

Lemma capacity_zero_selects_nothing_witness :
  KBruteForce 0 items9 = (0, []) /\
  KDynamic 0 items9 = (0, []) /\
  KProxy insertion_sort 0 items9 = (0, []) /\
  solveILP items9 0 = mkILP [] 0 0.
Proof.
  apply capacity_zero_selects_nothing;
    [exact insertion_sort_perm | discriminate | exact positive_weights_items9].
Defined.



(** In the scenario of C9 the ratios are 2, 10 and 5: sorting leaves one
    order only. *)
Lemma sorted_items9 l :
  Permutation l items9 -> sorted_by_ratio l ->
  l = [mkPallet 2 4 40; mkPallet 3 6 30; mkPallet 1 5 10].
Proof.
  intros Hperm Hsorted.
  pose proof (Permutation_length Hperm) as Hlen.
  destruct l as [|x [|y [|z [|? ?]]]]; try discriminate.
  assert (Hnd : NoDup [x; y; z]).
  { rewrite Hperm. unfold items9.
    repeat constructor; intros H; apply list_elem_of_In in H; simpl in H;
      intuition discriminate. }
  assert (Hx : In x items9) by (apply (Permutation_in _ Hperm); simpl; auto).
  assert (Hy : In y items9) by (apply (Permutation_in _ Hperm); simpl; auto).
  assert (Hz : In z items9) by (apply (Permutation_in _ Hperm); simpl; auto).
  apply NoDup_cons in Hnd as [Hxy Hnd]. apply NoDup_cons in Hnd as [Hyz _].
  rewrite !not_elem_of_cons in Hxy, Hyz.
  inversion Hsorted as [|? ? Hs1 Hf1]; subst.
  inversion Hs1 as [|? ? Hs2 Hf2]; subst.
  inversion Hf1 as [|? ? Hxy' Hf1']; subst.
  inversion Hf1' as [|? ? Hxz' _]; subst.
  inversion Hf2 as [|? ? Hyz' _]; subst.
  simpl in Hx, Hy, Hz.
  destruct Hx as [<-|[<-|[<-|[]]]], Hy as [<-|[<-|[<-|[]]]],
           Hz as [<-|[<-|[<-|[]]]];
    try reflexivity; try tauto;
    vm_compute in Hxy', Hxz', Hyz'; discriminate.
Qed.

(** C9: with capacity 10 and the items [{1, w=5, p=10}], [{2, w=4, p=40}],
    [{3, w=6, p=30}], the four solvers return profit 70 and report the
    selection [2; 3], whose pallets weigh 10 together. *)
Theorem scenario_capacity_10 (std_sort : list Pallet -> list Pallet) :
  Permutation (std_sort items9) items9 ->
  sorted_by_ratio (std_sort items9) ->
  KBruteForce 10 items9 = (70, [2; 3]) /\
  KDynamic 10 items9 = (70, [2; 3]) /\
  KProxy std_sort 10 items9 = (70, [2; 3]) /\
  solveILP items9 10 = mkILP [2; 3] 70 10 /\
  total_weight (named_items items9 [2; 3]) = 10.
Proof.
  intros Hperm Hsorted. split; [|split; [|split; [|split]]].
  - vm_compute. reflexivity.
  - vm_compute. reflexivity.
  - unfold KProxy. rewrite (sorted_items9 _ Hperm Hsorted).
    vm_compute. reflexivity.
  - vm_compute. reflexivity.
  - vm_compute. reflexivity.
Qed.

Lemma insertion_sort_items9 :
  insertion_sort items9 = [mkPallet 2 4 40; mkPallet 3 6 30; mkPallet 1 5 10].
Proof. vm_compute. reflexivity. Qed.

Lemma insertion_sort_items9_sorted : sorted_by_ratio (insertion_sort items9).
Proof.
  rewrite insertion_sort_items9. unfold sorted_by_ratio.
  repeat constructor; vm_compute; reflexivity.
Qed.

Lemma scenario_capacity_10_witness :
  KBruteForce 10 items9 = (70, [2; 3]) /\
  KDynamic 10 items9 = (70, [2; 3]) /\
  KProxy insertion_sort 10 items9 = (70, [2; 3]) /\
  solveILP items9 10 = mkILP [2; 3] 70 10 /\
  total_weight (named_items items9 [2; 3]) = 10.
Proof.
  apply scenario_capacity_10;
    [apply insertion_sort_perm | exact insertion_sort_items9_sorted].
Defined.

(** C10: the count table has no effect on what [KDynamic] returns: the
    profit and the reconstructed selection are those of the variant without
    the count table and the bookkeeping of its tie-break. *)
Theorem KDynamic_count_irrelevant C items :
  KDynamic C items = KDynamic_nocount C items.
Proof. rewrite KDynamic_unfold. reflexivity. Qed.

(** * Further properties of the code *)

(** ** The solvers against each other *)











(** ** No pallet fits *)







(** ** The greedy selection *)




(** ** The selection of the table walk *)



(** ** Looking pallets up and printing them *)


(** X7: [std::find_if] by id returns the first pallet of that id, and
    nothing exactly when no pallet has the id. *)
Theorem find_if_first id pallets :
  match find_if id pallets with
  | Some p => exists before after,
      pallets = before ++ p :: after /\ getID p = id /\
      Forall (fun q => getID q <> id) before
  | None => Forall (fun q => getID q <> id) pallets
  end.
Proof.
  induction pallets as [|q rest IH]; simpl; [constructor|].
  destruct (Z.eqb_spec (getID q) id) as [Heq|Hne].
  - exists [], rest. split; [reflexivity|]. split; [exact Heq | constructor].
  - destruct (find_if id rest) as [p|].
    + destruct IH as (before & after & -> & Hid & Hbefore).
      exists (q :: before), after. split; [reflexivity|].
      split; [exact Hid | constructor; assumption].
    + constructor; assumption.
Qed.







(** ** The recursive searches from any node *)





(** ** The count table *)

Section CountInvariant.

Variable pallets : list Pallet.
Variable cols : nat.
Hypothesis pallets_nonneg : Forall (fun p => 0 <= getWeight p) pallets.




End CountInvariant.





(** The walk over the profit table does not use the count table, and its
    selection can have more pallets than [count[n][C]]: with pallets
    [{1, w=1, p=1}], [{2, w=1, p=1}], [{3, w=2, p=2}] and capacity 2 it
    reports two pallets where one suffices. *)
Example KDynamic_selection_not_smallest :
  let items := [mkPallet 1 1 1; mkPallet 2 1 1; mkPallet 3 2 2] in
  KDynamic 2 items = (2, [1; 2]) /\
  tget (snd (KDynamic_tables 2 items)) 3 2 = 1 /\
  KBruteForce 2 items = (2, [3]).
Proof. cbv zeta. repeat split; vm_compute; reflexivity. Qed.

(** ** Reading numbers: [std::stoi] *)

Lemma string_app_assoc (a b c : string) :
  ((a ++ b) ++ c)%string = (a ++ (b ++ c))%string.
Proof. induction a as [|x a IH]; simpl; [reflexivity|]. rewrite IH. reflexivity. Qed.

Lemma string_app_nil_r (a : string) : (a ++ EmptyString)%string = a.
Proof. induction a as [|x a IH]; simpl; [reflexivity|]. rewrite IH. reflexivity. Qed.

Lemma string_length_app (a b : string) :
  String.length (a ++ b) = (String.length a + String.length b)%nat.
Proof. induction a as [|x a IH]; simpl; [reflexivity|]. rewrite IH. reflexivity. Qed.

Lemma string_forall_app P (a b : string) :
  string_forall P (a ++ b) = string_forall P a && string_forall P b.
Proof.
  induction a as [|x a IH]; simpl; [reflexivity|].
  rewrite IH, andb_assoc. reflexivity.
Qed.

Lemma string_forall_impl (P Q : ascii -> bool) s :
  (forall c, P c = true -> Q c = true) ->
  string_forall P s = true -> string_forall Q s = true.
Proof.
  intros HPQ. induction s as [|c s IH]; simpl; [reflexivity|].
  intros H. apply andb_prop in H. destruct H as [Hc Hs].
  rewrite (HPQ c Hc), (IH Hs). reflexivity.
Qed.

Lemma digit_char_spec d :
  0 <= d <= 9 ->
  isdigit (digit_char d) = true /\ digit_value (digit_char d) = d.
Proof.
  intros Hd.
  assert (Hcases : d = 0 \/ d = 1 \/ d = 2 \/ d = 3 \/ d = 4 \/ d = 5 \/
                   d = 6 \/ d = 7 \/ d = 8 \/ d = 9) by lia.
  repeat (destruct Hcases as [->|Hcases]; [split; reflexivity|]).
  subst d. split; reflexivity.
Qed.

Lemma isdigit_not_special c :
  isdigit c = true ->
  isspace c = false /\ Ascii.eqb c minus_sign = false /\
  Ascii.eqb c plus_sign = false /\ Ascii.eqb c comma = false /\
  Ascii.eqb c newline = false.
Proof.
  unfold isdigit, isspace. intros H.
  apply andb_prop in H. destruct H as [H1 H2].
  apply N.leb_le in H1. apply N.leb_le in H2.
  assert (Hne : forall k, (N_of_ascii k < 48)%N -> Ascii.eqb c k = false).
  { intros k Hk. destruct (Ascii.eqb_spec c k) as [->|]; [lia | reflexivity]. }
  repeat split; try (apply Hne; vm_compute; reflexivity).
  apply orb_false_intro; [apply N.eqb_neq; lia|].
  apply andb_false_intro2. apply N.leb_gt. lia.
Qed.

(** The numeral of a natural number: at least one digit, digits only, and
    reading it back continues from the accumulator shifted by its
    length. *)
Lemma show_digits_spec fuel :
  forall n acc, 0 <= n < 10 ^ (Z.of_nat fuel + 1) ->
  exists c ds,
    show_digits fuel n acc = (String c ds ++ acc)%string /\
    string_forall isdigit (String c ds) = true /\
    forall a k, read_digits (String c ds ++ k) a =
                read_digits k (a * 10 ^ Z.of_nat (String.length (String c ds))
                               + n).
Proof.
  assert (Hone : forall n acc, 0 <= n < 10 ->
            exists c ds,
              String (digit_char (n mod 10)) acc = (String c ds ++ acc)%string /\
              string_forall isdigit (String c ds) = true /\
              forall a k, read_digits (String c ds ++ k) a =
                read_digits k (a * 10 ^ Z.of_nat (String.length (String c ds))
                               + n)).
  { intros n acc Hn. exists (digit_char n), EmptyString.
    rewrite Z.mod_small by lia.
    destruct (digit_char_spec n ltac:(lia)) as [Hd Hv].
    split; [reflexivity|]. split; [simpl; rewrite Hd; reflexivity|].
    intros a k. simpl. rewrite Hd, Hv. f_equal. lia. }
  induction fuel as [|fuel IH]; intros n acc Hn.
  - simpl show_digits. apply Hone. simpl in Hn. lia.
  - simpl show_digits. destruct (Z.ltb_spec n 10) as [Hlt|Hge].
    + apply Hone. lia.
    + assert (Hdiv : 0 <= n / 10 < 10 ^ (Z.of_nat fuel + 1)).
      { split; [apply Z.div_pos; lia|].
        apply Z.div_lt_upper_bound; [lia|].
        replace (Z.of_nat (S fuel) + 1) with (Z.succ (Z.of_nat fuel + 1)) in Hn
          by lia.
        rewrite Z.pow_succ_r in Hn by lia. lia. }
      destruct (IH (n / 10) (String (digit_char (n mod 10)) acc) Hdiv)
        as (c & ds & Hshow & Hdig & Hread).
      pose proof (Z.mod_pos_bound n 10 ltac:(lia)) as Hmod.
      destruct (digit_char_spec (n mod 10) ltac:(lia)) as [Hd Hv].
      exists c, (ds ++ String (digit_char (n mod 10)) EmptyString)%string.
      split; [|split].
      * rewrite Hshow. simpl. rewrite string_app_assoc. reflexivity.
      * change (String c (ds ++ String (digit_char (n mod 10)) EmptyString))
          with (String c ds ++ String (digit_char (n mod 10)) EmptyString)%string.
        rewrite string_forall_app, Hdig. simpl. rewrite Hd. reflexivity.
      * intros a k.
        change (String c (ds ++ String (digit_char (n mod 10)) EmptyString) ++ k)%string
          with ((String c ds ++ String (digit_char (n mod 10)) EmptyString) ++ k)%string.
        rewrite string_app_assoc, Hread. simpl append. simpl read_digits.
        rewrite Hd, Hv. f_equal.
        change (String c (ds ++ String (digit_char (n mod 10)) EmptyString))
          with (String c ds ++ String (digit_char (n mod 10)) EmptyString)%string.
        rewrite string_length_app. simpl String.length.
        rewrite Nat.add_1_r, !Nat2Z.inj_succ, !Z.pow_succ_r by lia.
        pose proof (Z.div_mod n 10 ltac:(lia)). lia.
Qed.

Lemma show_nat_spec n :
  0 <= n ->
  exists c ds,
    show_nat n = String c ds /\
    string_forall isdigit (String c ds) = true /\
    forall a k, read_digits (String c ds ++ k) a =
                read_digits k (a * 10 ^ Z.of_nat (String.length (String c ds))
                               + n).
Proof.
  intros Hn. unfold show_nat.
  destruct (show_digits_spec (Z.to_nat (Z.log2 n)) n EmptyString)
    as (c & ds & Hshow & Hdig & Hread).
  - split; [exact Hn|]. rewrite Z2Nat.id by apply Z.log2_nonneg.
    destruct (Z.eq_dec n 0) as [->|Hne]; [simpl; lia|].
    destruct (Z.log2_spec n ltac:(lia)) as [_ Hlt].
    eapply Z.lt_le_trans; [exact Hlt|].
    replace (Z.succ (Z.log2 n)) with (Z.log2 n + 1) by lia.
    apply Z.pow_le_mono_l. lia.
  - exists c, ds. rewrite Hshow, string_app_nil_r. auto.
Qed.

Lemma read_digits_stop s acc : no_leading_digit s -> read_digits s acc = acc.
Proof. destruct s as [|c s]; simpl; [reflexivity|]. intros ->. reflexivity. Qed.

Lemma skip_spaces_app ws s :
  string_forall isspace ws = true ->
  skip_spaces (ws ++ s) = skip_spaces s.
Proof.
  induction ws as [|c ws IH]; simpl; [reflexivity|].
  intros H. apply andb_prop in H. destruct H as [Hc Hws].
  rewrite Hc. apply IH, Hws.
Qed.

Lemma stoi_numeral z ws junk :
  in_int_range z -> string_forall isspace ws = true -> no_leading_digit junk ->
  stoi (ws ++ show_int z ++ junk) = Returned z.
Proof.
  intros [Hlo Hhi] Hws Hjunk. unfold stoi, show_int.
  rewrite skip_spaces_app by exact Hws.
  destruct (Z.ltb_spec z 0) as [Hneg|Hpos].
  - destruct (show_nat_spec (- z) ltac:(lia)) as (c & ds & -> & Hdig & Hread).
    cbn [append skip_spaces]. change (isspace minus_sign) with false. cbv iota.
    rewrite Ascii.eqb_refl.
    change (String c (ds ++ junk)) with (String c ds ++ junk)%string.
    simpl in Hdig. apply andb_prop in Hdig. destruct Hdig as [Hc Hds].
    cbn [append]. rewrite Hc.
    change (String c (ds ++ junk)) with (String c ds ++ junk)%string.
    cbv zeta. rewrite Hread, (read_digits_stop _ _ Hjunk).
    rewrite Z.mul_0_l, Z.add_0_l, Z.opp_involutive.
    destruct (Z.ltb_spec z INT_MIN); [lia|].
    destruct (Z.ltb_spec INT_MAX z); [lia|]. reflexivity.
  - destruct (show_nat_spec z Hpos) as (c & ds & -> & Hdig & Hread).
    simpl in Hdig. apply andb_prop in Hdig. destruct Hdig as [Hc Hds].
    destruct (isdigit_not_special c Hc) as (Hsp & Hm & Hp & _).
    cbn [append skip_spaces]. rewrite Hsp, Hm, Hp, Hc.
    change (String c (ds ++ junk)) with (String c ds ++ junk)%string.
    cbv zeta. rewrite Hread, (read_digits_stop _ _ Hjunk).
    rewrite Z.mul_0_l, Z.add_0_l.
    destruct (Z.ltb_spec z INT_MIN); [lia|].
    destruct (Z.ltb_spec INT_MAX z); [lia|]. reflexivity.
Qed.

Lemma stoi_returns_int s v : stoi s = Returned v -> in_int_range v.
Proof.
  unfold stoi.
  destruct (skip_spaces s) as [|c r]; [discriminate|].
  destruct (if Ascii.eqb c minus_sign then _ else _) as [negative digits].
  destruct digits as [|d ds]; [discriminate|].
  destruct (isdigit d); [|discriminate]. cbv zeta.
  match goal with
  | |- context [Z.ltb ?x INT_MIN] =>
      destruct (Z.ltb_spec x INT_MIN) as [|Hlo]; [discriminate|];
      destruct (Z.ltb_spec INT_MAX x) as [|Hhi]; [discriminate|]
  end.
  intros [= <-]. split; assumption.
Qed.

Lemma stoi_out_of_range z :
  ~ in_int_range z -> stoi (show_int z) = Thrown out_of_range.
Proof.
  intros Hz. unfold stoi, show_int. unfold in_int_range in Hz.
    destruct (Z.ltb_spec z 0) as [Hneg|Hpos].
    + destruct (show_nat_spec (- z) ltac:(lia)) as (c & ds & -> & Hdig & Hread).
      cbn [append skip_spaces]. change (isspace minus_sign) with false. cbv iota.
      rewrite Ascii.eqb_refl.
      simpl in Hdig. apply andb_prop in Hdig. destruct Hdig as [Hc Hds].
      rewrite Hc. cbv zeta.
      rewrite <- (string_app_nil_r (String c ds)), Hread. simpl read_digits.
      rewrite Z.mul_0_l, Z.add_0_l, Z.opp_involutive.
      destruct (Z.ltb_spec z INT_MIN); [reflexivity|].
      destruct (Z.ltb_spec INT_MAX z); [reflexivity | lia].
    + destruct (show_nat_spec z Hpos) as (c & ds & -> & Hdig & Hread).
      simpl in Hdig. apply andb_prop in Hdig. destruct Hdig as [Hc Hds].
      destruct (isdigit_not_special c Hc) as (Hsp & Hm & Hp & _).
      cbn [append skip_spaces]. rewrite Hsp, Hm, Hp, Hc. cbv zeta.
      rewrite <- (string_app_nil_r (String c ds)), Hread. simpl read_digits.
      rewrite Z.mul_0_l, Z.add_0_l.
      destruct (Z.ltb_spec z INT_MIN); [reflexivity|].
      destruct (Z.ltb_spec INT_MAX z); [reflexivity | lia].
Qed.

(** ** Reading lines: [std::getline] and the loaders *)

Lemma extract_app token s delim :
  string_forall (not_char delim) token = true ->
  extract (token ++ s) delim =
  (token ++ fst (extract s delim), snd (extract s delim))%string.
Proof.
  induction token as [|c token IH]; simpl.
  - intros _. destruct (extract s delim). reflexivity.
  - intros H. apply andb_prop in H. destruct H as [Hc Htok].
    unfold not_char in Hc. apply negb_true_iff in Hc. rewrite Hc.
    rewrite (IH Htok). reflexivity.
Qed.

Lemma extract_delim token rest delim :
  string_forall (not_char delim) token = true ->
  extract (token ++ String delim rest) delim = (token, Some rest).
Proof.
  intros H. rewrite (extract_app _ _ _ H). simpl.
  rewrite Ascii.eqb_refl. simpl. rewrite string_app_nil_r. reflexivity.
Qed.

Lemma getline_delim token rest str delim :
  string_forall (not_char delim) token = true ->
  getline (open_stream (token ++ String delim rest)) str delim =
  (open_stream rest, token).
Proof.
  intros H. unfold getline, open_stream. simpl.
  rewrite (extract_delim _ _ _ H). reflexivity.
Qed.

Lemma no_leading_digit_extract s delim :
  no_leading_digit s -> no_leading_digit (fst (extract s delim)).
Proof.
  destruct s as [|c s]; simpl; [auto|].
  intros Hc. destruct (Ascii.eqb c delim); [exact I|].
  destruct (extract s delim). simpl. exact Hc.
Qed.

Lemma show_int_chars z :
  string_forall (not_char comma) (show_int z) = true /\
  string_forall (not_char newline) (show_int z) = true.
Proof.
  assert (Hdig : forall s, string_forall isdigit s = true ->
            string_forall (not_char comma) s = true /\
            string_forall (not_char newline) s = true).
  { intros s Hs. split; eapply string_forall_impl; try exact Hs;
      intros c Hc; destruct (isdigit_not_special c Hc) as (_ & _ & _ & H1 & H2);
      unfold not_char; [rewrite H1 | rewrite H2]; reflexivity. }
  unfold show_int. destruct (Z.ltb_spec z 0) as [Hneg|Hpos].
  - destruct (show_nat_spec (- z) ltac:(lia)) as (c & ds & -> & Hd & _).
    destruct (Hdig _ Hd) as [H1 H2].
    change (string_forall (not_char comma) (String minus_sign (String c ds)))
      with (not_char comma minus_sign
            && string_forall (not_char comma) (String c ds)).
    change (string_forall (not_char newline) (String minus_sign (String c ds)))
      with (not_char newline minus_sign
            && string_forall (not_char newline) (String c ds)).
    rewrite H1, H2. split; reflexivity.
  - destruct (show_nat_spec z Hpos) as (c & ds & -> & Hd & _).
    apply Hdig, Hd.
Qed.

(** A line of three numerals is read as the pallet they denote, whatever
    follows the third one, unless it starts with a digit. *)
Lemma parse_pallet_fields p junk :
  pallet_in_int_range p -> no_leading_digit junk ->
  parse_pallet (csv_fields p ++ junk) = Returned p.
Proof.
  intros (Hid & Hw & Hp) Hjunk. unfold parse_pallet, csv_fields.
  destruct (show_int_chars (getID p)) as [Hc1 _].
  destruct (show_int_chars (getWeight p)) as [Hc2 _].
  destruct (show_int_chars (getProfit p)) as [_ Hn3].
  rewrite !string_app_assoc. cbn [append].
  rewrite (getline_delim _ _ _ _ Hc1).
  pose proof (stoi_numeral (getID p) EmptyString EmptyString Hid eq_refl I) as H1.
  cbn [append] in H1. rewrite string_app_nil_r in H1. rewrite H1.
  rewrite !string_app_assoc. cbn [append].
  rewrite (getline_delim _ _ _ _ Hc2).
  pose proof (stoi_numeral (getWeight p) EmptyString EmptyString Hw eq_refl I) as H2.
  cbn [append] in H2. rewrite string_app_nil_r in H2. rewrite H2.
  unfold getline, open_stream. cbn [good eofbit failbit buffer negb andb].
  rewrite (extract_app _ junk _ Hn3).
  pose proof (stoi_numeral (getProfit p) EmptyString (fst (extract junk newline)) Hp
                eq_refl (no_leading_digit_extract _ _ Hjunk)) as H3.
  cbn [append] in H3.
  destruct (snd (extract junk newline)); rewrite H3; destruct p; reflexivity.
Qed.

Lemma read_pallets_step file line pallets :
  read_pallets file line pallets =
  let '(file', line') := getline file line newline in
  if failbit file' then Returned pallets
  else match parse_pallet line' with
       | Thrown e => Thrown e
       | Returned p => read_pallets file' line' (pallets ++ [p])
       end.
Proof.
  funelim (read_pallets file line pallets);
    match goal with
    | H : getline _ _ _ = _ |- _ => rewrite H
    end; cbv beta iota zeta;
    repeat match goal with
    | H : failbit _ = _ |- _ => rewrite H
    | H : parse_pallet _ = _ |- _ => rewrite H
    end; reflexivity.
Qed.

Lemma read_pallets_text eol pallets rest_line line acc :
  Forall pallet_in_int_range pallets ->
  string_forall (not_char newline) eol = true -> no_leading_digit eol ->
  forall k,
    (forall line' acc',
       read_pallets (open_stream rest_line) line' acc' = k acc') ->
    read_pallets (open_stream (csv_text eol pallets ++ rest_line)) line acc =
    k (acc ++ pallets).
Proof.
  intros Hps Heol Hjunk k Hk. revert line acc.
  induction Hps as [|p ps Hp Hps IH]; intros line acc.
  - simpl. rewrite app_nil_r. apply Hk.
  - rewrite read_pallets_step. cbn [csv_text].
    rewrite !string_app_assoc. cbn [append].
    rewrite <- (string_app_assoc (csv_fields p) eol).
    rewrite getline_delim.
    + cbn [failbit open_stream].
      rewrite (parse_pallet_fields p eol Hp Hjunk).
      rewrite IH, <- app_assoc. reflexivity.
    + rewrite string_forall_app, Heol, andb_true_r.
      unfold csv_fields.
      destruct (show_int_chars (getID p)) as [_ H1].
      destruct (show_int_chars (getWeight p)) as [_ H2].
      destruct (show_int_chars (getProfit p)) as [_ H3].
      rewrite string_forall_app. cbn [string_forall].
      rewrite string_forall_app. cbn [string_forall].
      rewrite H1, H2, H3. reflexivity.
Qed.

Lemma read_pallets_end line acc :
  read_pallets (open_stream EmptyString) line acc = Returned acc.
Proof. rewrite read_pallets_step. reflexivity. Qed.

Lemma csv_fields_no_newline p eol :
  string_forall (not_char newline) eol = true ->
  string_forall (not_char newline) (csv_fields p ++ eol) = true.
Proof.
  intros Heol. rewrite string_forall_app, Heol, andb_true_r.
  unfold csv_fields.
  destruct (show_int_chars (getID p)) as [_ H1].
  destruct (show_int_chars (getWeight p)) as [_ H2].
  destruct (show_int_chars (getProfit p)) as [_ H3].
  rewrite string_forall_app. cbn [string_forall].
  rewrite string_forall_app. cbn [string_forall].
  rewrite H1, H2, H3. reflexivity.
Qed.

Lemma getline_last token str delim c :
  string_forall (not_char delim) (String c token) = true ->
  getline (open_stream (String c token)) str delim =
  (mkStream EmptyString true false, String c token).
Proof.
  intros H. unfold getline, open_stream.
  cbn [good eofbit failbit buffer negb andb].
  rewrite <- (string_app_nil_r (String c token)) at 1.
  rewrite (extract_app _ _ _ H). cbn [extract fst snd].
  rewrite string_app_nil_r. reflexivity.
Qed.

Lemma csv_fields_cons p eol :
  exists c token, (csv_fields p ++ eol)%string = String c token.
Proof.
  unfold csv_fields, show_int. destruct (Z.ltb_spec (getID p) 0) as [Hneg|Hpos].
  - eexists _, _. reflexivity.
  - destruct (show_nat_spec (getID p) Hpos) as (c & ds & -> & _).
    eexists _, _. reflexivity.
Qed.

(** X12: [loadPallets] appends to the vector exactly the pallets that the
    text denotes: after a header line, one line [id,weight,profit] of
    decimal numerals for each pallet, each followed by [eol] (nothing, a
    carriage return, anything without a line break that does not start with
    a digit), with or without a line break after the last line. *)
Theorem loadPallets_reads_text header eol pallets last before :
  string_forall (not_char newline) header = true ->
  string_forall (not_char newline) eol = true -> no_leading_digit eol ->
  Forall pallet_in_int_range pallets -> pallet_in_int_range last ->
  loadPallets (Some (header ++ String newline (csv_text eol pallets))%string)
              before
    = Returned (true, before ++ pallets) /\
  loadPallets (Some (header ++ String newline
                       (csv_text eol pallets ++ csv_fields last ++ eol))%string)
              before
    = Returned (true, before ++ pallets ++ [last]).
Proof.
  intros Hheader Heol Hjunk Hps Hlast. unfold loadPallets. split.
  - rewrite (getline_delim _ _ _ _ Hheader).
    rewrite <- (string_app_nil_r (csv_text eol pallets)).
    rewrite (read_pallets_text eol pallets EmptyString header before Hps Heol Hjunk
               Returned); [reflexivity|].
    intros. apply read_pallets_end.
  - rewrite (getline_delim _ _ _ _ Hheader).
    rewrite (read_pallets_text eol pallets _ header before Hps Heol Hjunk
               (fun acc => Returned (acc ++ [last])));
      [rewrite <- app_assoc; reflexivity|].
    intros line' acc'. rewrite read_pallets_step.
    pose proof (csv_fields_no_newline last eol Heol) as Hline.
    pose proof (parse_pallet_fields last eol Hlast Hjunk) as Hparse.
    destruct (csv_fields_cons last eol) as (c & token & Hfields).
    rewrite Hfields in *.
    rewrite (getline_last _ _ _ _ Hline). cbn [failbit].
    rewrite Hparse, read_pallets_step. reflexivity.
Qed.

Lemma in_int_range_items9 : Forall pallet_in_int_range items9.
Proof.
  repeat constructor; unfold in_int_range, INT_MIN, INT_MAX; simpl; lia.
Qed.

Lemma loadPallets_reads_text_witness :
  loadPallets (Some ("id,weight,profit" ++ String newline
                       (csv_text EmptyString items9))%string) []
    = Returned (true, [] ++ items9) /\
  loadPallets (Some ("id,weight,profit" ++ String newline
                       (csv_text EmptyString items9
                        ++ csv_fields (mkPallet 4 1 1) ++ EmptyString))%string) []
    = Returned (true, [] ++ items9 ++ [mkPallet 4 1 1]).
Proof.
  apply loadPallets_reads_text;
    [reflexivity | reflexivity | exact I | exact in_int_range_items9 |].
  repeat split; unfold INT_MIN, INT_MAX; simpl; lia.
Defined.

(** X13: an empty line in a pallet file (after the header and any number of
    well-formed lines) makes [loadPallets] throw [invalid_argument], whatever
    follows it. *)
Theorem loadPallets_blank_line header eol pallets rest before :
  string_forall (not_char newline) header = true ->
  string_forall (not_char newline) eol = true -> no_leading_digit eol ->
  Forall pallet_in_int_range pallets ->
  loadPallets (Some (header ++ String newline
                       (csv_text eol pallets ++ String newline rest))%string)
              before
    = Thrown invalid_argument.
Proof.
  intros Hheader Heol Hjunk Hps. unfold loadPallets.
  rewrite (getline_delim _ _ _ _ Hheader).
  rewrite (read_pallets_text eol pallets _ header before Hps Heol Hjunk
             (fun _ => Thrown invalid_argument)); [reflexivity|].
  intros line' acc'. rewrite read_pallets_step.
  pose proof (getline_delim EmptyString rest line' newline eq_refl) as Hget.
  cbn [append] in Hget. rewrite Hget. reflexivity.
Qed.

Lemma loadPallets_blank_line_witness :
  loadPallets (Some ("id,weight,profit" ++ String newline
                       (csv_text EmptyString items9 ++ String newline EmptyString))%string) []
    = Thrown invalid_argument.
Proof.
  apply loadPallets_blank_line;
    [reflexivity | reflexivity | exact I | exact in_int_range_items9].
Defined.

Lemma show_int_stoi z junk :
  in_int_range z -> no_leading_digit junk ->
  stoi (show_int z ++ junk) = Returned z.
Proof. intros Hz Hj. apply (stoi_numeral z EmptyString junk Hz eq_refl Hj). Qed.

Lemma show_int_cons z : exists c s, show_int z = String c s.
Proof.
  unfold show_int. destruct (Z.ltb_spec z 0) as [Hneg|Hpos].
  - eexists _, _. reflexivity.
  - destruct (show_nat_spec z Hpos) as (c & ds & -> & _).
    eexists _, _. reflexivity.
Qed.

(** X14: a line with two fields only is not rejected: the third call of
    [getline] finds the stream at its end and leaves [token] as it was, so
    the profit of the pallet is its weight. *)
Theorem loadPallets_short_line header a b eol before :
  string_forall (not_char newline) header = true ->
  string_forall (not_char newline) eol = true ->
  string_forall (not_char comma) eol = true -> no_leading_digit eol ->
  in_int_range a -> in_int_range b ->
  loadPallets
    (Some (header ++ String newline
             ((show_int a ++ String comma (show_int b ++ eol))
              ++ String newline EmptyString))%string) before
    = Returned (true, before ++ [mkPallet a b b]).
Proof.
  intros Hheader Heol Hcomma Hjunk Ha Hb. unfold loadPallets.
  rewrite (getline_delim _ _ _ _ Hheader).
  destruct (show_int_chars a) as [Hca Hna].
  destruct (show_int_chars b) as [Hcb Hnb].
  rewrite read_pallets_step, getline_delim.
  2:{ rewrite string_forall_app, Hna. cbn [string_forall].
      rewrite string_forall_app, Hnb, Heol. reflexivity. }
  cbn [failbit open_stream].
  assert (Hparse : parse_pallet (show_int a ++ String comma (show_int b ++ eol))
                   = Returned (mkPallet a b b)).
  { unfold parse_pallet.
    rewrite (getline_delim _ _ _ _ Hca).
    pose proof (show_int_stoi a EmptyString Ha I) as H1.
    rewrite string_app_nil_r in H1. rewrite H1.
    assert (Htok : string_forall (not_char comma) (show_int b ++ eol) = true)
      by (rewrite string_forall_app, Hcb, Hcomma; reflexivity).
    destruct (show_int_cons b) as (c & s & Hs). rewrite Hs in *.
    cbn [append] in *.
    rewrite (getline_last _ _ _ _ Htok).
    change (String c (s ++ eol)) with (String c s ++ eol)%string.
    rewrite <- Hs, (show_int_stoi b eol Hb Hjunk).
    unfold getline. cbn [good eofbit failbit negb andb].
    rewrite (show_int_stoi b eol Hb Hjunk). reflexivity. }
  rewrite Hparse, read_pallets_end. reflexivity.
Qed.

Lemma loadPallets_short_line_witness :
  loadPallets
    (Some ("id,weight,profit" ++ String newline
             ((show_int 5 ++ String comma (show_int 7 ++ EmptyString))
              ++ String newline EmptyString))%string) []
    = Returned (true, [] ++ [mkPallet 5 7 7]).
Proof.
  apply loadPallets_short_line;
    try reflexivity; try exact I; unfold in_int_range, INT_MIN, INT_MAX; lia.
Defined.

Lemma truck_fields_parse capacity numPallets eol token0 :
  string_forall (not_char newline) eol = true -> no_leading_digit eol ->
  in_int_range capacity -> in_int_range numPallets ->
  (let ss := open_stream (show_int capacity
                          ++ String comma (show_int numPallets ++ eol)) in
   let '(ss, token) := getline ss token0 comma in
   match stoi token with
   | Thrown e => Thrown e
   | Returned capacity' =>
       let '(ss, token) := getline ss token newline in
       match stoi token with
       | Thrown e => Thrown e
       | Returned numPallets' => Returned (true, capacity', numPallets')
       end
   end) = Returned (true, capacity, numPallets).
Proof.
  intros Heol Hjunk Hc Hn. cbv zeta.
  destruct (show_int_chars capacity) as [Hcc _].
  destruct (show_int_chars numPallets) as [_ Hnn].
  rewrite (getline_delim _ _ _ _ Hcc).
  pose proof (show_int_stoi capacity EmptyString Hc I) as H1.
  rewrite string_app_nil_r in H1. rewrite H1.
  assert (Htok : string_forall (not_char newline)
                   (show_int numPallets ++ eol) = true)
    by (rewrite string_forall_app, Hnn, Heol; reflexivity).
  pose proof (show_int_stoi numPallets eol Hn Hjunk) as H2.
  destruct (show_int_cons numPallets) as (c & s & Hs). rewrite Hs in *.
  cbn [append] in *.
  rewrite (getline_last _ _ _ _ Htok), H2. reflexivity.
Qed.

Lemma truck_data_no_newline capacity numPallets eol :
  string_forall (not_char newline) eol = true ->
  string_forall (not_char newline)
    (show_int capacity ++ String comma (show_int numPallets ++ eol)) = true.
Proof.
  intros Heol.
  destruct (show_int_chars capacity) as [_ Hcn].
  destruct (show_int_chars numPallets) as [_ Hnn].
  rewrite string_forall_app, Hcn. cbn [string_forall].
  rewrite string_forall_app, Hnn, Heol. reflexivity.
Qed.

Lemma loadTruckData_truck_text header capacity numPallets eol c0 n0 :
  string_forall (not_char newline) header = true ->
  string_forall (not_char newline) eol = true -> no_leading_digit eol ->
  in_int_range capacity -> in_int_range numPallets ->
  loadTruckData (Some (truck_text header capacity numPallets eol)) c0 n0
    = Returned (true, capacity, numPallets).
Proof.
  intros Hheader Heol Hjunk Hc Hn. unfold loadTruckData, truck_text.
  rewrite (getline_delim _ _ _ _ Hheader).
  pose proof (truck_data_no_newline capacity numPallets eol Heol) as Hdata.
  pose proof (truck_fields_parse capacity numPallets eol EmptyString
                Heol Hjunk Hc Hn) as Hparse.
  destruct (show_int_cons capacity) as (c & s & Hs). rewrite Hs in *.
  cbn [append] in *.
  rewrite (getline_last _ _ _ _ Hdata). exact Hparse.
Qed.

(** X15: [loadTruckData] returns the capacity and the number of pallets
    that the second line of the text denotes, whether or not anything
    follows that line. *)
Theorem loadTruckData_reads_text header capacity numPallets eol rest c0 n0 :
  string_forall (not_char newline) header = true ->
  string_forall (not_char newline) eol = true -> no_leading_digit eol ->
  in_int_range capacity -> in_int_range numPallets ->
  loadTruckData (Some (truck_text header capacity numPallets eol)) c0 n0
    = Returned (true, capacity, numPallets) /\
  loadTruckData (Some (truck_text header capacity numPallets eol
                       ++ String newline rest)%string) c0 n0
    = Returned (true, capacity, numPallets).
Proof.
  intros Hheader Heol Hjunk Hc Hn. split.
  - apply loadTruckData_truck_text; assumption.
  - unfold loadTruckData, truck_text.
    rewrite string_app_assoc. cbn [append].
    rewrite (getline_delim _ _ _ _ Hheader).
    rewrite (getline_delim _ _ _ _
               (truck_data_no_newline capacity numPallets eol Heol)).
    apply (truck_fields_parse capacity numPallets eol EmptyString
             Heol Hjunk Hc Hn).
Qed.

Lemma loadTruckData_reads_text_witness :
  loadTruckData (Some (truck_text "Capacity,Pallets" 10 3 EmptyString)) 0 0
    = Returned (true, 10, 3) /\
  loadTruckData (Some (truck_text "Capacity,Pallets" 10 3 EmptyString
                       ++ String newline EmptyString)%string) 0 0
    = Returned (true, 10, 3).
Proof.
  apply loadTruckData_reads_text;
    try reflexivity; try exact I; unfold in_int_range, INT_MIN, INT_MAX; lia.
Defined.

Lemma parse_pallet_range line p :
  parse_pallet line = Returned p -> pallet_in_int_range p.
Proof.
  unfold parse_pallet.
  destruct (getline (open_stream line) EmptyString comma) as [ss1 t1].
  destruct (stoi t1) as [id|] eqn:H1; [|discriminate].
  destruct (getline ss1 t1 comma) as [ss2 t2].
  destruct (stoi t2) as [weight|] eqn:H2; [|discriminate].
  destruct (getline ss2 t2 newline) as [ss3 t3].
  destruct (stoi t3) as [profit|] eqn:H3; [|discriminate].
  intros [= <-]. repeat split; eapply stoi_returns_int; eassumption.
Qed.

Lemma read_pallets_appends file line acc ps :
  read_pallets file line acc = Returned ps ->
  exists new, ps = acc ++ new /\ Forall pallet_in_int_range new.
Proof.
  revert ps. funelim (read_pallets file line acc); intros ps Hps.
  - injection Hps as <-.
    exists []. rewrite app_nil_r. split; [reflexivity | constructor].
  - match goal with
    | IH : forall ps, _ -> exists new, _ |- _ =>
        destruct (IH ps Hps) as (new & -> & Hnew)
    end.
    exists (p :: new). rewrite <- app_assoc. split; [reflexivity|].
    constructor; [|exact Hnew]. eapply parse_pallet_range. eassumption.
  - discriminate.
Qed.

(** X16: whatever the file holds, [loadPallets] only appends to the vector,
    every pallet it appends has its three fields in the range of [int], and
    the flag it returns tells whether the file could be opened; a file that
    cannot be opened leaves the vector as it was. *)
Theorem loadPallets_appends file before flag pallets :
  loadPallets file before = Returned (flag, pallets) ->
  exists new,
    pallets = before ++ new /\ Forall pallet_in_int_range new /\
    flag = match file with Some _ => true | None => false end /\
    (file = None -> new = []).
Proof.
  unfold loadPallets. destruct file as [content|].
  - destruct (getline (open_stream content) EmptyString newline) as [f line].
    destruct (read_pallets f line before) as [ps|] eqn:Hread; [|discriminate].
    intros [= <- <-].
    destruct (read_pallets_appends _ _ _ _ Hread) as (new & -> & Hnew).
    exists new. repeat split; auto. discriminate.
  - intros [= <- <-]. exists []. rewrite app_nil_r.
    repeat split; auto.
Qed.

Lemma loadPallets_appends_witness :
  exists new,
    [mkPallet 1 5 10] = [] ++ new /\ Forall pallet_in_int_range new /\
    true = match Some ("id,weight,profit" ++ String newline "1,5,10")%string
           with Some _ => true | None => false end /\
    (Some ("id,weight,profit" ++ String newline "1,5,10")%string = None ->
     new = []).
Proof.
  apply (loadPallets_appends
           (Some ("id,weight,profit" ++ String newline "1,5,10")%string)
           [] true [mkPallet 1 5 10]).
  vm_compute. reflexivity.
Defined.

(** ** One turn of [main] *)



Lemma loadPallets_bad_field_core header eol pallets token tail rest before e :
  string_forall (not_char newline) header = true ->
  string_forall (not_char newline) eol = true -> no_leading_digit eol ->
  Forall pallet_in_int_range pallets ->
  string_forall (not_char comma) token = true ->
  string_forall (not_char newline) token = true ->
  string_forall (not_char newline) tail = true ->
  stoi token = Thrown e ->
  loadPallets
    (Some (header ++ String newline
             (csv_text eol pallets
              ++ (token ++ String comma tail) ++ String newline rest))%string)
    before
    = Thrown e.
Proof.
  intros Hheader Heol Hjunk Hps Htc Htn Htail Hstoi. unfold loadPallets.
  rewrite (getline_delim _ _ _ _ Hheader).
  rewrite (read_pallets_text eol pallets _ header before Hps Heol Hjunk
             (fun _ => Thrown e)); [reflexivity|].
  intros line' acc'. rewrite read_pallets_step, getline_delim.
  - cbn [failbit open_stream]. unfold parse_pallet.
    rewrite (getline_delim _ _ _ _ Htc), Hstoi. reflexivity.
  - rewrite string_forall_app, Htn. cbn [string_forall].
    rewrite Htail. reflexivity.
Qed.

(** X18: a line whose first field [std::stoi] cannot convert ends
    [loadPallets] with the exception of [std::stoi], after any number of
    well-formed lines and whatever follows: [invalid_argument] when the
    field holds no number, [out_of_range] when it is the numeral of an
    integer that is not an [int]. *)
Theorem loadPallets_bad_field header eol pallets tail rest before :
  string_forall (not_char newline) header = true ->
  string_forall (not_char newline) eol = true -> no_leading_digit eol ->
  Forall pallet_in_int_range pallets ->
  string_forall (not_char newline) tail = true ->
  (forall token e,
     string_forall (not_char comma) token = true ->
     string_forall (not_char newline) token = true ->
     stoi token = Thrown e ->
     loadPallets
       (Some (header ++ String newline
                (csv_text eol pallets
                 ++ (token ++ String comma tail) ++ String newline rest))%string)
       before = Thrown e) /\
  (forall z, ~ in_int_range z ->
     loadPallets
       (Some (header ++ String newline
                (csv_text eol pallets
                 ++ (show_int z ++ String comma tail)
                 ++ String newline rest))%string)
       before = Thrown out_of_range).
Proof.
  intros Hheader Heol Hjunk Hps Htail. split.
  - intros token e Htc Htn Hstoi.
    apply loadPallets_bad_field_core; assumption.
  - intros z Hz. destruct (show_int_chars z) as [Hc Hn].
    apply loadPallets_bad_field_core; try assumption.
    apply stoi_out_of_range, Hz.
Qed.

Lemma loadPallets_bad_field_witness :
  loadPallets
    (Some ("id,weight,profit" ++ String newline
             (csv_text EmptyString items9
              ++ ("abc" ++ String comma "1,2") ++ String newline EmptyString))%string)
    [] = Thrown invalid_argument /\
  loadPallets
    (Some ("id,weight,profit" ++ String newline
             (csv_text EmptyString items9
              ++ (show_int 3000000000 ++ String comma "1,2")
              ++ String newline EmptyString))%string)
    [] = Thrown out_of_range.
Proof.
  destruct (loadPallets_bad_field "id,weight,profit" EmptyString items9 "1,2" EmptyString [])
    as [Hbad Hrange];
    [reflexivity | reflexivity | exact I | exact in_int_range_items9
    | reflexivity |].
  split.
  - apply Hbad; reflexivity.
  - apply Hrange. unfold in_int_range, INT_MAX. lia.
Defined.

(** X19: truck files with fewer lines or fields than expected.  A file
    whose second line is missing or empty makes [loadTruckData] throw
    [invalid_argument]; a file of one line without a line break is read as
    if that line were the data (the second call of [getline] fails and
    leaves [line] as it was); a data line with one number only gives that
    number to both the capacity and the number of pallets. *)
Theorem loadTruckData_short_file header capacity numPallets eol c0 n0 :
  string_forall (not_char newline) header = true ->
  string_forall (not_char newline) eol = true ->
  string_forall (not_char comma) eol = true -> no_leading_digit eol ->
  in_int_range capacity -> in_int_range numPallets ->
  loadTruckData (Some EmptyString) c0 n0 = Thrown invalid_argument /\
  loadTruckData (Some (header ++ String newline EmptyString)%string) c0 n0
    = Thrown invalid_argument /\
  loadTruckData
    (Some (show_int capacity
           ++ String comma (show_int numPallets ++ eol))%string) c0 n0
    = Returned (true, capacity, numPallets) /\
  loadTruckData
    (Some (header ++ String newline (show_int capacity ++ eol))%string) c0 n0
    = Returned (true, capacity, capacity).
Proof.
  intros Hheader Heol Hcomma Hjunk Hc Hn.
  destruct (show_int_chars capacity) as [Hcc Hcn].
  destruct (show_int_chars numPallets) as [_ Hnn].
  split; [reflexivity|]. split; [|split].
  - unfold loadTruckData. rewrite (getline_delim _ _ _ _ Hheader).
    reflexivity.
  - unfold loadTruckData.
    assert (Hdata : string_forall (not_char newline)
              (show_int capacity
               ++ String comma (show_int numPallets ++ eol)) = true).
    { rewrite string_forall_app, Hcn. cbn [string_forall].
      rewrite string_forall_app, Hnn, Heol. reflexivity. }
    pose proof (truck_fields_parse capacity numPallets eol EmptyString
                  Heol Hjunk Hc Hn) as Hparse.
    destruct (show_int_cons capacity) as (c & s & Hs). rewrite Hs in *.
    cbn [append] in *.
    rewrite (getline_last _ _ _ _ Hdata).
    unfold getline at 1. cbn [good eofbit failbit negb andb].
    exact Hparse.
  - unfold loadTruckData. rewrite (getline_delim _ _ _ _ Hheader).
    assert (Hline : string_forall (not_char newline)
                      (show_int capacity ++ eol) = true)
      by (rewrite string_forall_app, Hcn, Heol; reflexivity).
    assert (Htok : string_forall (not_char comma)
                     (show_int capacity ++ eol) = true)
      by (rewrite string_forall_app, Hcc, Hcomma; reflexivity).
    pose proof (show_int_stoi capacity eol Hc Hjunk) as H1.
    destruct (show_int_cons capacity) as (c & s & Hs). rewrite Hs in *.
    cbn [append] in *.
    rewrite (getline_last _ _ _ _ Hline).
    rewrite (getline_last _ _ _ _ Htok), H1.
    unfold getline. cbn [good eofbit failbit negb andb]. rewrite H1.
    reflexivity.
Qed.

Lemma loadTruckData_short_file_witness :
  loadTruckData (Some EmptyString) 0 0 = Thrown invalid_argument /\
  loadTruckData (Some ("Capacity,Pallets" ++ String newline EmptyString)%string) 0 0
    = Thrown invalid_argument /\
  loadTruckData
    (Some (show_int 10 ++ String comma (show_int 3 ++ EmptyString))%string) 0 0
    = Returned (true, 10, 3) /\
  loadTruckData
    (Some ("Capacity,Pallets" ++ String newline (show_int 10 ++ EmptyString))%string)
    0 0
    = Returned (true, 10, 10).
Proof.
  apply loadTruckData_short_file;
    try reflexivity; try exact I; unfold in_int_range, INT_MIN, INT_MAX; lia.
Defined.

(** ** More on the table walk and on the weight of the branch and bound *)

(** X20: for every capacity [C >= 0] and pallets of non-negative weights
    and profits (pallets of weight 0 included), the selection that
    [KDynamic] prints is a subset of the pallets that fits the capacity,
    and its profit is at most the profit that [KDynamic] returns. *)
Theorem KDynamic_selection_feasible C items :
  0 <= C -> nonneg_items items ->
  exists sel,
    sel `sublist_of` items /\
    snd (KDynamic C items) = map getID sel /\
    total_weight sel <= C /\
    total_profit sel <= fst (KDynamic C items).
Proof.
  intros HC Hnn. exists (dp_walk items (length items) C).
  assert (Hsub : dp_walk items (length items) C `sublist_of` items)
    by (etransitivity; [apply dp_walk_sublist | apply sublist_take]).
  pose proof (dp_walk_weight items (length items) C HC) as Hw.
  split; [exact Hsub|]. split; [apply KDynamic_selection; assumption|].
  split; [exact Hw|].
  apply (KDynamic_optimum C items HC Hnn). split; assumption.
Qed.

Lemma KDynamic_selection_feasible_witness :
  exists sel,
    sel `sublist_of` [mkPallet 1 0 5; mkPallet 2 1 3] /\
    snd (KDynamic 1 [mkPallet 1 0 5; mkPallet 2 1 3]) = map getID sel /\
    total_weight sel <= 1 /\
    total_profit sel <= fst (KDynamic 1 [mkPallet 1 0 5; mkPallet 2 1 3]).
Proof.
  apply KDynamic_selection_feasible; [lia|].
  repeat constructor; simpl; lia.
Defined.

(** X21: on a non-empty list of pallets with distinct ids, the weight that
    [solveILP] recomputes from the selected ids is the [bestWeight] that
    [branchAndBound] has left; on the empty list [bestWeight] is still the
    sentinel [INT_MAX] and the recomputed weight is 0. *)
Theorem solveILP_weight_is_bestWeight pallets C :
  0 <= C -> nonneg_items pallets -> NoDup (map getID pallets) ->
  let best := branchAndBound pallets 0 C 0 0 [] (mkBB [] 0 INT_MAX) in
  (pallets <> [] -> totalWeight (solveILP pallets C) = bestWeight best) /\
  (pallets = [] ->
   bestWeight best = INT_MAX /\ totalWeight (solveILP pallets C) = 0).
Proof.
  intros HC Hnn Hnd. cbv zeta. split.
  - intros Hne. unfold solveILP.
    rewrite branchAndBound_search, drop_0 by exact Hne.
    destruct (bb_search_spec C pallets (nonneg_items_weights _ Hnn)
                0 0 [] (mkBB [] 0 INT_MAX) HC) as (_ & Hc & Hr).
    rewrite Z.sub_0_r in Hc, Hr.
    destruct Hr as [Hr|(sel & [Hs Hw] & Hr)].
    + exfalso.
      assert (Hempty : feasible pallets C [])
        by (split; [apply sublist_nil_l | simpl; lia]).
      specialize (Hc [] Hempty). rewrite Hr in Hc.
      unfold bb_ge, bb_cand, INT_MAX in Hc. simpl in Hc. lia.
    + rewrite Hr. unfold bb_cand. simpl.
      apply (ilp_weight_sel _ _ Hnd Hs).
  - intros ->. unfold solveILP. rewrite branchAndBound_empty. auto.
Qed.

Lemma solveILP_weight_is_bestWeight_witness :
  let best := branchAndBound items9 0 10 0 0 [] (mkBB [] 0 INT_MAX) in
  (items9 <> [] -> totalWeight (solveILP items9 10) = bestWeight best) /\
  (items9 = [] ->
   bestWeight best = INT_MAX /\ totalWeight (solveILP items9 10) = 0).
Proof.
  apply solveILP_weight_is_bestWeight;
    [lia | exact nonneg_items9 | exact NoDup_ids_items9].
Defined.
